(** * CirrusSearch update-lag checker: the sampling and latency-tracking pipeline

    A shallow embedding of [main.py]: the event filter, the two bounded
    deques of [make_input_queue], the batched lookup [cirrusdump], the
    extraction of the indexed revision [current_search_rev], and the polling
    loop [monitor_latency] with its pending table [revs].

    Conventions of the embedding.
    - Python [str] is [string]; [int] is [Z]; a [deque(maxlen=n)] is a list
      (left end first) with its bound; the [dict] [revs] is an association
      list in insertion order, as Python dicts iterate.
    - Exceptions are values: a computation returns [Ok v] or [Raise e].
    - Values decoded from JSON are dynamically typed ([json]).  Where the
      source's annotations declare a field type ([page_title: str],
      [rev_id: int], [Tuple[str, int]]) the embedding projects the decoded
      value to that type; a value of another type makes the run leave the
      typed embedding, which is reported as [IllTyped] and is not a Python
      exception.
    - The library calls [json.loads], [requests.get], [time.time] and the
      deliveries of the sampler thread are the environment [Env]. *)

From Stdlib Require Import List String Ascii ZArith Lia Bool Arith DecimalString.
From Stdlib Require Import Permutation.
Import ListNotations.
Local Open Scope Z_scope.
Local Open Scope list_scope.

(** ** Python results *)

Module Py.

Inductive exn : Type :=
| IndexError        (* pop from an empty deque *)
| ValueError        (* max() of an empty sequence *)
| KeyError          (* d[k] with k absent *)
| TypeError         (* subscript or iteration of the wrong kind of value *)
| AttributeError    (* .get / .values on a value that is not a dict *)
| JSONDecodeError   (* json.loads / Response.json on unparseable text *)
| ConnectionError   (* requests.get could not reach the server *)
| HTTPError.        (* Response.raise_for_status on a 4xx/5xx status *)

Inductive result (A : Type) : Type :=
| Ok (a : A)
| Raise (e : exn)
| IllTyped.
Arguments Ok {A} a.
Arguments Raise {A} e.
Arguments IllTyped {A}.

Definition bind {A B} (r : result A) (k : A -> result B) : result B :=
  match r with
  | Ok a => k a
  | Raise e => Raise e
  | IllTyped => IllTyped
  end.

Fixpoint mapM {A B} (f : A -> result B) (l : list A) : result (list B) :=
  match l with
  | [] => Ok []
  | a :: l' => bind (f a) (fun b => bind (mapM f l') (fun bs => Ok (b :: bs)))
  end.

(** [needle in s] on strings. *)
Fixpoint contains (needle s : string) : bool :=
  String.prefix needle s ||
  match s with
  | EmptyString => false
  | String _ s' => contains needle s'
  end.

(** [sep.join(l)] *)
Fixpoint join (sep : string) (l : list string) : string :=
  match l with
  | [] => EmptyString
  | [x] => x
  | x :: l' => (x ++ sep ++ join sep l')%string
  end.

(** [max(l)] on integers; the empty sequence raises ValueError. *)
Definition max (l : list Z) : result Z :=
  match l with
  | [] => Raise ValueError
  | x :: l' => Ok (fold_left Z.max l' x)
  end.

(** Truth value of an [Optional[int]]: [None] and [0] are falsy. *)
Definition truthy (o : option Z) : bool :=
  match o with
  | None => false
  | Some z => negb (z =? 0)
  end.

End Py.
Export Py.

Declare Scope py_scope.
Delimit Scope py_scope with py.
Notation "x <- c ;; k" := (bind c (fun x => k))
  (at level 100, c at next level, right associativity) : py_scope.
Notation "' p <- c ;; k" := (bind c (fun p => k))
  (at level 100, p pattern, c at next level, right associativity) : py_scope.

(** ** collections.deque with a bound *)

Module Deque.

Record deque (A : Type) : Type := mk_deque { maxlen : nat; items : list A }.
Arguments mk_deque {A} maxlen items.
Arguments maxlen {A} d.
Arguments items {A} d.

Definition new {A} (n : nat) : deque A := mk_deque n [].

(** [d.append(x)]: add on the right; when the bound is exceeded one item
    is discarded from the left. *)
Definition append {A} (x : A) (d : deque A) : deque A :=
  let l := items d ++ [x] in
  mk_deque (maxlen d) (if (maxlen d <? List.length l)%nat then tl l else l).

(** [d.pop()]: remove and return the rightmost item. *)
Definition pop {A} (d : deque A) : result (A * deque A) :=
  match rev (items d) with
  | [] => Raise IndexError
  | x :: r => Ok (x, mk_deque (maxlen d) (rev r))
  end.

Definition extend {A} (xs : list A) (d : deque A) : deque A :=
  fold_left (fun d x => append x d) xs d.

End Deque.
Import Deque.

(** ** The event filter of [main] *)

Definition dq : string := String (ascii_of_nat 34) EmptyString.

(** The text ["k":"v"], a key and a string value in compact JSON. *)
Definition marker (k v : string) : string :=
  (dq ++ k ++ dq ++ ":" ++ dq ++ v ++ dq)%string.

Definition input_filter (event_data : string) : bool :=
  let is_wikidata := contains (marker "domain" "www.wikidata.org") event_data in
  let is_edit := contains (marker "type" "edit") event_data in
  let is_new := contains (marker "type" "new") event_data in
  is_wikidata && (is_edit || is_new).

(** ** make_input_queue *)

Record sse_event : Type := { event : string; data : string }.

Record intake : Type := mk_intake { event_q : deque string; final_q : deque string }.

Definition make_input_queue : intake :=
  {| event_q := Deque.new 5; final_q := Deque.new 5 |}.

(** One iteration of the loop of [feed_event_q]. *)
Definition feed_event_q (filter_fn : string -> bool) (ev : sse_event) (s : intake) : intake :=
  if (event ev =? "message")%string && filter_fn (data ev)
  then {| event_q := append (data ev) (event_q s); final_q := final_q s |}
  else s.

(** One iteration of the loop of [feed_final_q], up to its [sleep()]. *)
Definition feed_final_q (s : intake) : result intake :=
  match pop (event_q s) with
  | Raise IndexError => Ok s
  | Ok (item, event_q') =>
      Ok {| event_q := event_q'; final_q := append item (final_q s) |}
  | Raise e => Raise e
  | IllTyped => IllTyped
  end.

(** ** Decoded JSON values *)

Module Json.

#[warnings="-register-all"]
Inductive json : Type :=
| JNull
| JBool (b : bool)
| JInt (z : Z)
| JStr (s : string)
| JList (l : list json)
| JDict (kv : list (string * json)).

Fixpoint assoc {V} (k : string) (kv : list (string * V)) : option V :=
  match kv with
  | [] => None
  | (k', v) :: kv' => if (k =? k')%string then Some v else assoc k kv'
  end.

(** [j[k]] with a [str] key. *)
Definition getitem (j : json) (k : string) : result json :=
  match j with
  | JDict kv => match assoc k kv with Some v => Ok v | None => Raise KeyError end
  | _ => Raise TypeError
  end.

(** [j.get(k, default)] *)
Definition get (j : json) (k : string) (default : json) : result json :=
  match j with
  | JDict kv => match assoc k kv with Some v => Ok v | None => Ok default end
  | _ => Raise AttributeError
  end.

(** [j.values()] *)
Definition values (j : json) : result (list json) :=
  match j with
  | JDict kv => Ok (map snd kv)
  | _ => Raise AttributeError
  end.

(** The items that [for x in j] visits. *)
Definition iter (j : json) : result (list json) :=
  match j with
  | JList l => Ok l
  | JDict kv => Ok (map (fun p => JStr (fst p)) kv)
  | JStr s => Ok (map (fun c => JStr (String c EmptyString)) (list_ascii_of_string s))
  | _ => Raise TypeError
  end.

(** Projections to the annotated types. *)
Definition as_str (j : json) : result string :=
  match j with JStr s => Ok s | _ => IllTyped end.

Definition as_int (j : json) : result Z :=
  match j with JInt z => Ok z | _ => IllTyped end.

End Json.
Import Json.

(** ** The pending table: a dict in insertion order *)

Module Dict.

Definition dict (V : Type) : Type := list (string * V).

Definition keys {V} (d : dict V) : list string := map fst d.

(** [d[k]] *)
Definition getitem {V} (k : string) (d : dict V) : result V :=
  match assoc k d with Some v => Ok v | None => Raise KeyError end.

(** [d[k] = v]: a present key keeps its place and takes the new value, an
    absent key is added at the end. *)
Fixpoint setitem {V} (k : string) (v : V) (d : dict V) : dict V :=
  match d with
  | [] => [(k, v)]
  | (k', v') :: d' =>
      if (k =? k')%string then (k', v) :: d' else (k', v') :: setitem k v d'
  end.

Fixpoint remove {V} (k : string) (d : dict V) : dict V :=
  match d with
  | [] => []
  | (k', v') :: d' => if (k =? k')%string then d' else (k', v') :: remove k d'
  end.

(** [del d[k]] *)
Definition delitem {V} (k : string) (d : dict V) : result (dict V) :=
  match assoc k d with Some _ => Ok (remove k d) | None => Raise KeyError end.

End Dict.
Import Dict.

(** ** The environment and the state of the poller *)

Record Revision : Type :=
  mk_Revision { page_title : string; rev_id : Z; rc_timestamp : Z }.

Record http_response : Type :=
  { status_code : Z;
    json_body : option json   (* what [res.json()] decodes; [None]: it raises *) }.

Record Env (Time : Type) : Type :=
  { json_loads : string -> option json;           (* [None]: JSONDecodeError *)
    requests_get : nat -> string -> result http_response;
                        (* the answer to the n-th GET, by its [titles] parameter *)
    clock : nat -> Time;                          (* the n-th reading of [clock()] *)
    sampled : nat -> list string   (* what the sampler thread appends to [q]
                                      while the poller is in its n-th sleep *) }.
Arguments json_loads {Time} e _.
Arguments requests_get {Time} e _ _.
Arguments clock {Time} e _.
Arguments sampled {Time} e _.

Record state (Time : Type) : Type :=
  mk_state
    { q : deque string;                 (* the deque shared with the sampler *)
      revs : dict Revision;             (* the pending table *)
      requests : list string;           (* [titles] of every GET issued so far *)
      clock_reads : nat;
      sleeps : nat;
      yielded : list (Revision * Time)  (* what the generator has yielded *) }.
Arguments mk_state {Time} q revs requests clock_reads sleeps yielded.
Arguments q {Time} s.
Arguments revs {Time} s.
Arguments requests {Time} s.
Arguments clock_reads {Time} s.
Arguments sleeps {Time} s.
Arguments yielded {Time} s.

Definition init_state {Time} (q0 : deque string) : state Time :=
  mk_state q0 [] [] 0%nat 0%nat [].

(** Computations of the poller: the state survives an exception. *)
Definition M (Time A : Type) : Type := state Time -> result A * state Time.

Definition mret {Time A} (a : A) : M Time A := fun s => (Ok a, s).

Definition mbind {Time A B} (m : M Time A) (k : A -> M Time B) : M Time B :=
  fun s =>
    match m s with
    | (Ok a, s') => k a s'
    | (Raise e, s') => (Raise e, s')
    | (IllTyped, s') => (IllTyped, s')
    end.

Definition lift {Time A} (r : result A) : M Time A := fun s => (r, s).

Definition gets {Time A} (f : state Time -> A) : M Time A := fun s => (Ok (f s), s).

Definition modify {Time} (f : state Time -> state Time) : M Time unit :=
  fun s => (Ok tt, f s).

Declare Scope poll_scope.
Delimit Scope poll_scope with poll.
Notation "x <- c ;; k" := (mbind c (fun x => k))
  (at level 100, c at next level, right associativity) : poll_scope.
Notation "' p <- c ;; k" := (mbind c (fun p => k))
  (at level 100, p pattern, c at next level, right associativity) : poll_scope.
Notation "c ;;; k" := (mbind c (fun _ => k))
  (at level 100, right associativity) : poll_scope.

Fixpoint for_each {Time A} (l : list A) (body : A -> M Time unit) : M Time unit :=
  match l with
  | [] => mret tt
  | a :: l' => (body a ;;; for_each l' body)%poll
  end.

(** ** cirrusdump and current_search_rev *)

Section Poller.

Context {Time : Type} (env : Env Time).

Definition log_request (titles : string) (s : state Time) : state Time :=
  mk_state (q s) (revs s) (requests s ++ [titles]) (clock_reads s) (sleeps s)
           (yielded s).

(** [res.raise_for_status()] *)
Definition raise_for_status (res : http_response) : result unit :=
  if (400 <=? status_code res) && (status_code res <? 600)
  then Raise HTTPError else Ok tt.

(** [res.json()] *)
Definition res_json (res : http_response) : result json :=
  match json_body res with Some j => Ok j | None => Raise JSONDecodeError end.

Definition cirrusdump (titles : list string) : M Time json :=
  let titles := join "|" titles in
  if (titles =? EmptyString)%string then mret (JDict [])
  else
    (n <- gets (fun s => List.length (requests s)) ;;
     modify (log_request titles) ;;;
     res <- lift (requests_get env n titles) ;;
     lift (raise_for_status res) ;;;
     lift (body <- res_json res ;;
           query <- Json.getitem body "query" ;;
           Json.getitem query "pages")%py)%poll.

(** [doc['source']['version']] *)
Definition doc_version (doc : json) : result json :=
  (source <- Json.getitem doc "source" ;; Json.getitem source "version")%py.

(** The pair that [current_search_rev] yields for one page. *)
Definition page_rev (page : json) : result (string * option Z) :=
  (docs <- Json.get page "cirrusdoc" (JList []) ;;
   docs <- Json.iter docs ;;
   versions <- mapM doc_version docs ;;
   rev_ids <- mapM as_int versions ;;
   let rev_id :=
     match Py.max rev_ids with
     | Ok m => Some m
     | _ => None          (* except ValueError *)
     end in
   title <- Json.getitem page "title" ;;
   title <- as_str title ;;
   Ok (title, rev_id))%py.

(** [current_search_rev(titles)]: the generator calls [cirrusdump] when the
    loop first asks for a pair, then computes one pair per page; its value
    here is the list of these pairs, each still to be computed. *)
Definition current_search_rev (titles : list string)
  : M Time (list (result (string * option Z))) :=
  (pages <- cirrusdump titles ;;
   pages <- lift (Json.values pages) ;;
   mret (map page_rev pages))%poll.

(** ** monitor_latency *)

Definition loads (raw_event : string) : result json :=
  match json_loads env raw_event with
  | Some j => Ok j
  | None => Raise JSONDecodeError
  end.

(** [Revision(page_title=event['title'], rev_id=event['revision']['new'],
    rc_timestamp=event['timestamp'])] for [event = json.loads(raw_event)] *)
Definition parse_revision (raw_event : string) : result Revision :=
  (event <- loads raw_event ;;
   title <- Json.getitem event "title" ;;
   revision <- Json.getitem event "revision" ;;
   new <- Json.getitem revision "new" ;;
   timestamp <- Json.getitem event "timestamp" ;;
   title <- as_str title ;;
   new <- as_int new ;;
   timestamp <- as_int timestamp ;;
   Ok (mk_Revision title new timestamp))%py.

(** The loop of [fill_revs] over the content of [q] in the order [q.pop()]
    hands it out (rightmost first); returns what is left in that order. *)
Fixpoint fill_revs_loop (todo : list string) (revs0 : dict Revision)
  : result unit * list string * dict Revision :=
  match todo with
  | [] => (Ok tt, [], revs0)                  (* IndexError: return *)
  | raw_event :: todo' =>
      match parse_revision raw_event with
      | Ok rev => fill_revs_loop todo' (setitem (page_title rev) rev revs0)
      | Raise e => (Raise e, todo', revs0)
      | IllTyped => (IllTyped, todo', revs0)
      end
  end.

Definition fill_revs : M Time unit :=
  fun s =>
    let '(r, todo', revs') := fill_revs_loop (rev (items (q s))) (revs s) in
    (r, mk_state (mk_deque (maxlen (q s)) (rev todo')) revs' (requests s)
                 (clock_reads s) (sleeps s) (yielded s)).

(** [cur_rev_id and cur_rev_id >= rev.rev_id] *)
Definition satisfied (cur_rev_id : option Z) (rev : Revision) : bool :=
  truthy cur_rev_id &&
  match cur_rev_id with
  | Some r => r >=? rev_id rev
  | None => false
  end.

(** [yield rev, clock()] *)
Definition yield_now (rev : Revision) (s : state Time) : state Time :=
  mk_state (q s) (revs s) (requests s) (S (clock_reads s)) (sleeps s)
           (yielded s ++ [(rev, clock env (clock_reads s))]).

Definition set_revs (d : dict Revision) (s : state Time) : state Time :=
  mk_state (q s) d (requests s) (clock_reads s) (sleeps s) (yielded s).

(** The body of the [for] loop for the next pair of the generator; the
    pair is computed when the loop asks for it, so an exception of that
    computation surfaces here. *)
Definition resolve (next : result (string * option Z)) : M Time unit :=
  ('(page_title, cur_rev_id) <- lift next ;;
   d <- gets revs ;;
   rev <- lift (Dict.getitem page_title d) ;;
   if satisfied cur_rev_id rev
   then (d' <- lift (delitem page_title d) ;;
         modify (set_revs d') ;;;
         modify (yield_now rev))
   else mret tt)%poll.

(** [sleep()]: the sampler thread runs meanwhile. *)
Definition sleep : M Time unit :=
  modify (fun s =>
    mk_state (extend (sampled env (sleeps s)) (q s)) (revs s) (requests s)
             (clock_reads s) (S (sleeps s)) (yielded s)).

(** One turn of the [while True] loop of [monitor_latency]; the [print] of
    the number of pending pages is left out. *)
Definition poll_cycle : M Time unit :=
  (fill_revs ;;;
   d <- gets revs ;;
   pairs <- current_search_rev (keys d) ;;
   for_each pairs resolve ;;;
   sleep)%poll.

(** The first [n] turns of the loop. *)
Fixpoint monitor_latency (n : nat) : M Time unit :=
  match n with
  | O => mret tt
  | S n' => (poll_cycle ;;; monitor_latency n')%poll
  end.

End Poller.

(** ** Vocabulary of the statements *)

(** The payload carries the text ["k":"v"] somewhere. *)
Definition marks (k v payload : string) : Prop :=
  exists pre post : string, payload = (pre ++ marker k v ++ post)%string.

(** The last [n] items of a list. *)
Definition lastn {A} (n : nat) (l : list A) : list A :=
  skipn (List.length l - n) l.

(** What [feed_event_q] lets through. *)
Definition accepted (filter_fn : string -> bool) (evs : list sse_event) : list string :=
  map data
      (filter (fun ev => (event ev =? "message")%string && filter_fn (data ev)) evs).

Definition feed_all (filter_fn : string -> bool) (evs : list sse_event) (s : intake)
  : intake :=
  fold_left (fun s ev => feed_event_q filter_fn ev s) evs s.

(** A compact payload with a domain and a type. *)
Definition payload_of (domain type : string) : string :=
  ("{" ++ marker "domain" domain ++ "," ++ marker "type" type ++ "}")%string.

(** A [message] event of the feed. *)
Definition msg (payload : string) : sse_event :=
  {| event := "message"; data := payload |}.


(** The lookup of the table under [titles] fails with [e]: [requests.get]
    raises, or the answer has an error status. *)
Definition lookup_fails {Time} (env : Env Time) (n : nat) (titles : string)
    (e : exn) : Prop :=
  requests_get env n titles = Raise e \/
  exists res, requests_get env n titles = Ok res /\ raise_for_status res = Raise e.


(** The upserts of [fill_revs] for a list of decoded revisions. *)
Definition upsert_all (rs : list Revision) (d : dict Revision) : dict Revision :=
  fold_left (fun d rev => setitem (page_title rev) rev d) rs d.

(** ** Sample data

    Compact JSON text for decoded values without escapes, a decoder that
    inverts it on a given list of values and rejects every other text, and
    the shapes of a feed event and of a page of the lookup response. *)

Definition string_of_Z (z : Z) : string := NilZero.string_of_int (Z.to_int z).

Fixpoint compact (j : json) : string :=
  match j with
  | JNull => "null"
  | JBool true => "true"
  | JBool false => "false"
  | JInt z => string_of_Z z
  | JStr s => dq ++ s ++ dq
  | JList l => "[" ++ join "," (map compact l) ++ "]"
  | JDict kv =>
      "{" ++ join "," (map (fun p => dq ++ fst p ++ dq ++ ":" ++ compact (snd p)) kv)
          ++ "}"
  end%string.

Definition loads_of (known : list json) (text : string) : option json :=
  find (fun j => (compact j =? text)%string) known.

Definition change_event (type title : string) (new timestamp : Z) : json :=
  JDict [("domain", JStr "www.wikidata.org"); ("type", JStr type);
         ("title", JStr title); ("revision", JDict [("new", JInt new)]);
         ("timestamp", JInt timestamp)]%string.

Definition cirrus_doc (version : Z) : json :=
  JDict [("index", JStr "wikidatawiki_content");
         ("source", JDict [("version", JInt version)])]%string.

Definition cirrus_page (title : string) (versions : option (list Z)) : json :=
  JDict (("title", JStr title) ::
         match versions with
         | None => []
         | Some vs => [("cirrusdoc", JList (map cirrus_doc vs))]
         end)%string.

Definition api_answer (pages : list (string * json)) : http_response :=
  {| status_code := 200;
     json_body :=
       Some (JDict [("batchcomplete", JStr EmptyString);
                    ("query", JDict [("pages", JDict pages)])]%string) |}.

(** A log event of a page protection: its type is [log], and the details
    of the protection carry a [type] of their own. *)
Definition protect_log : json :=
  JDict [("domain", JStr "www.wikidata.org"); ("type", JStr "log");
         ("title", JStr "Q1"); ("log_type", JStr "protect");
         ("log_params",
          JDict [("details",
                  JList [JDict [("type", JStr "edit"); ("level", JStr "sysop")]])])]%string.

Definition q1_42 : json := change_event "edit" "Q1" 42 1000.
Definition x_5 : json := change_event "edit" "X" 5 500.
Definition x_7 : json := change_event "edit" "X" 7 700.
Definition x_0 : json := change_event "new" "X" 0 100.

(** An environment for the scenarios below: the lookup finds revision 41 of
    Q1 on the first request and revision 42 from then on; title X is always
    reported with version 0; any other request fails with status 503. *)
Definition sample_env : Env Z :=
  {| json_loads := loads_of [q1_42; x_5; x_7; x_0; protect_log];
     requests_get := fun n titles =>
       if (titles =? "Q1")%string
       then Ok (api_answer
                  [("582"%string, cirrus_page "Q1" (Some [if (n =? 0)%nat then 41 else 42; 40]))])
       else if (titles =? "X")%string
       then Ok (api_answer [("-1"%string, cirrus_page "X" (Some [0]))])
       else Ok {| status_code := 503; json_body := None |};
     clock := fun n => 1060 + 10 * Z.of_nat n;
     sampled := fun _ => [] |}.

(** [docs] is the list of per-shard documents of [page]: the value under
    [cirrusdoc], or empty when the page has no such key. *)
Definition page_docs (page : json) (docs : list json) : Prop :=
  exists kv, page = JDict kv /\
    (assoc "cirrusdoc"%string kv = Some (JList docs) \/
     (assoc "cirrusdoc"%string kv = None /\ docs = [])).



(** A poller state with the given queue content and pending table. *)
Definition state_with (queued : list string) (pending : dict Revision) : state Z :=
  mk_state (mk_deque 5 queued) pending [] 0%nat 0%nat [].

Definition pending_x_at (expected timestamp : Z) : dict Revision :=
  [("X"%string, mk_Revision "X" expected timestamp)].

Definition pending_x (expected : Z) : dict Revision := pending_x_at expected 100.

(** ** The two threads of [make_input_queue]

    The feed reader and the sampler run as daemon threads.  A run of the
    two is a sequence of their loop iterations, in any order; one iteration
    acts on the deques in one piece, as [append] and [pop] do. *)

Inductive intake_op : Type :=
| Feed (ev : sse_event)     (* the feed reader receives [ev] *)
| Tick.                     (* the sampler wakes up *)

Definition intake_step (filter_fn : string -> bool) (op : intake_op) (s : intake)
  : result intake :=
  match op with
  | Feed ev => Ok (feed_event_q filter_fn ev s)
  | Tick => feed_final_q s
  end.

Fixpoint intake_run (filter_fn : string -> bool) (ops : list intake_op) (s : intake)
  : result intake :=
  match ops with
  | [] => Ok s
  | op :: ops' => bind (intake_step filter_fn op s) (intake_run filter_fn ops')
  end.

(** The events the feed reader received in a run. *)
Fixpoint fed (ops : list intake_op) : list sse_event :=
  match ops with
  | [] => []
  | Feed ev :: ops' => ev :: fed ops'
  | Tick :: ops' => fed ops'
  end.

(** Both buffers have capacity 5 and are within it. *)
Definition bounded_intake (s : intake) : Prop :=
  maxlen (event_q s) = 5%nat /\ maxlen (final_q s) = 5%nat /\
  (List.length (items (event_q s)) <= 5)%nat /\
  (List.length (items (final_q s)) <= 5)%nat.

(** ** Vocabulary for the resolution phase *)

(** The pending entries that a list of reported pairs resolves, with the
    title each was reported under, in the order of the report. *)
Definition resolved_entries (d : dict Revision) (pairs : list (string * option Z))
  : list (string * Revision) :=
  flat_map (fun p =>
              match assoc (fst p) d with
              | Some rev => if satisfied (snd p) rev then [(fst p, rev)] else []
              | None => []
              end) pairs.

(** Revisions paired with successive readings of the clock, from the
    [n]-th on. *)
Fixpoint stamp {Time} (clock : nat -> Time) (n : nat) (rs : list Revision)
  : list (Revision * Time) :=
  match rs with
  | [] => []
  | r :: rs' => (r, clock n) :: stamp clock (S n) rs'
  end.

Definition remove_all (ks : list string) (d : dict Revision) : dict Revision :=
  fold_left (fun d k => remove k d) ks d.

(** A computation of the poller relates every state to the state it
    leaves, whether it returns or raises. *)
Definition respects {Time A} (R : state Time -> state Time -> Prop) (m : M Time A)
  : Prop :=
  forall s, R s (snd (m s)).

(** What was yielded is kept, and every new yield read the clock once. *)
Definition yields_extend {Time} (s s' : state Time) : Prop :=
  exists ys, yielded s' = yielded s ++ ys /\
             clock_reads s' = (clock_reads s + List.length ys)%nat.

(** Neither the request log nor the sleep count changed. *)
Definition same_accounts {Time} (s s' : state Time) : Prop :=
  requests s' = requests s /\ sleeps s' = sleeps s.

(** The queue kept its bound, and is within it if it was. *)
Definition queue_kept {Time} (s s' : state Time) : Prop :=
  maxlen (q s') = maxlen (q s) /\
  ((List.length (items (q s)) <= maxlen (q s))%nat ->
   (List.length (items (q s')) <= maxlen (q s'))%nat).

(** From [s] to [s'] the request log was extended by at most [kr] requests
    and the loop slept at most [ks] times. *)
Definition spends {Time} (kr ks : nat) (s s' : state Time) : Prop :=
  exists rq, requests s' = requests s ++ rq /\
             (List.length rq <= kr)%nat /\
             (sleeps s' <= sleeps s + ks)%nat.

(** A computation that, when it returns, has slept exactly [k] times. *)
Definition sleeps_exactly {Time A} (k : nat) (m : M Time A) : Prop :=
  forall s a, fst (m s) = Ok a -> sleeps (snd (m s)) = (sleeps s + k)%nat.

(** No entry of the pending table of [s'] is new or altered with respect
    to [s]. *)
Definition table_within {Time} (s s' : state Time) : Prop :=
  incl (revs s') (revs s).

(** The payload carries the three texts [input_filter] looks for. *)
Definition has_filter_texts (payload : string) : Prop :=
  contains (marker "domain" "www.wikidata.org") payload = true /\
  (contains (marker "type" "edit") payload = true \/
   contains (marker "type" "new") payload = true).

(** An environment whose sampler delivers three samples during every sleep
    of the poller; otherwise as [sample_env]. *)
Definition busy_env : Env Z :=
  {| json_loads := json_loads sample_env;
     requests_get := requests_get sample_env;
     clock := clock sample_env;
     sampled := fun _ => [compact x_5; compact q1_42; compact x_7] |}.

(** * Properties *)

(** ** Strings *)

Lemma prefix_spec (n s : string) :
  String.prefix n s = true <-> exists post, s = (n ++ post)%string.
Proof.
  revert s; induction n as [|c n IH]; intros s.
  - split; [intros _; exists s; reflexivity | intros _; destruct s; reflexivity].
  - destruct s as [|c' s]; simpl.
    + split; [discriminate | intros [post H]; discriminate].
    + destruct (Ascii.ascii_dec c c') as [->|Hne].
      * rewrite IH. split; intros [post H]; exists post.
        -- now rewrite H.
        -- now inversion H.
      * split; [discriminate | intros [post H]; inversion H; congruence].
Qed.

Lemma contains_spec (n s : string) :
  contains n s = true <-> exists pre post, s = (pre ++ n ++ post)%string.
Proof.
  induction s as [|c s IH]; cbn [contains].
  - rewrite orb_false_r, prefix_spec. split.
    + intros [post H]. exists EmptyString, post. exact H.
    + intros [pre [post H]]. destruct pre; [exists post; exact H | discriminate].
  - rewrite orb_true_iff, prefix_spec, IH. split.
    + intros [[post H] | [pre [post H]]].
      * exists EmptyString, post. exact H.
      * exists (String c pre), post. simpl. now rewrite H.
    + intros [pre [post H]]. destruct pre as [|c' pre]; simpl in H.
      * left. exists post. exact H.
      * right. exists pre, post. now inversion H.
Qed.

(** C3 (filter correctness, as the filter has it).  [input_filter] answers
    [True] exactly for the payload texts that carry the compact text
    ["domain":"www.wikidata.org"] and carry the text ["type":"edit"] or the
    text ["type":"new"], anywhere in the payload; it answers [False] for
    every other text. *)
Theorem input_filter_correct (payload : string) :
  let relevant :=
    marks "domain" "www.wikidata.org" payload /\
    (marks "type" "edit" payload \/ marks "type" "new" payload) in
  (input_filter payload = true <-> relevant) /\
  (input_filter payload = false <-> ~ relevant).
Proof.
  intros relevant.
  assert (Hiff : input_filter payload = true <-> relevant).
  { unfold relevant, input_filter, marks.
    rewrite andb_true_iff, orb_true_iff, !contains_spec. reflexivity. }
  split; [exact Hiff|].
  rewrite <- Hiff. destruct (input_filter payload); split; intro H;
    try discriminate; try reflexivity; exfalso; apply H; reflexivity.
Qed.


Example filter_accepts_edit :
  input_filter (payload_of "www.wikidata.org" "edit") = true.
Proof. reflexivity. Qed.

Example filter_accepts_new :
  input_filter (payload_of "www.wikidata.org" "new") = true.
Proof. reflexivity. Qed.

Example filter_refuses_domain :
  input_filter (payload_of "en.wikipedia.org" "edit") = false.
Proof. reflexivity. Qed.

(** C3 as stated fails: the payload below decodes to an event of the
    target domain whose type is [log], and the filter accepts it, because
    the text ["type":"edit"] occurs in the parameters of the log entry. *)
Lemma filter_accepts_log_event :
  json_loads sample_env (compact protect_log) = Some protect_log /\
  Json.getitem protect_log "domain" = Ok (JStr "www.wikidata.org") /\
  Json.getitem protect_log "type" = Ok (JStr "log") /\
  input_filter (compact protect_log) = true.
Proof. repeat split; vm_compute; reflexivity. Qed.

Example filter_refuses_log :
  input_filter (payload_of "www.wikidata.org" "log") = false.
Proof. reflexivity. Qed.

(** ** The bounded deques *)

Section DequeFacts.

Context {A : Type}.
Implicit Types (d : deque A) (l xs : list A) (x : A).

Lemma maxlen_append x d : maxlen (append x d) = maxlen d.
Proof. reflexivity. Qed.

Lemma maxlen_extend xs d : maxlen (extend xs d) = maxlen d.
Proof.
  revert d; induction xs as [|x xs IH]; intros d; [reflexivity|].
  simpl. now rewrite IH.
Qed.

Lemma extend_snoc xs x d : extend (xs ++ [x]) d = append x (extend xs d).
Proof. unfold extend. now rewrite fold_left_app. Qed.

Lemma tl_skipn n l : tl (skipn n l) = skipn (S n) l.
Proof.
  revert l; induction n as [|n IH]; intros [|a l]; try reflexivity.
  cbn [skipn]. apply IH.
Qed.

Lemma length_lastn n l : List.length (lastn n l) = Nat.min n (List.length l).
Proof. unfold lastn. rewrite length_skipn. lia. Qed.

(** Appending to the last [n] items and trimming gives the last [n] items. *)
Lemma lastn_snoc n l x :
  (if (n <? List.length (lastn n l ++ [x]))%nat
   then tl (lastn n l ++ [x]) else lastn n l ++ [x])
  = lastn n (l ++ [x]).
Proof.
  rewrite length_app, length_lastn. simpl List.length.
  unfold lastn. rewrite length_app. simpl List.length.
  destruct (Nat.ltb_spec n (Nat.min n (List.length l) + 1)) as [Hlt|Hge].
  - assert (Hn : (n <= List.length l)%nat) by lia.
    replace (List.length l + 1 - n)%nat with (S (List.length l - n)) by lia.
    rewrite <- tl_skipn. rewrite skipn_app.
    replace (List.length l - n - List.length l)%nat with 0%nat by lia.
    reflexivity.
  - replace (List.length l + 1 - n)%nat with 0%nat by lia.
    replace (List.length l - n)%nat with 0%nat by lia.
    reflexivity.
Qed.

(** A deque within its bound holds the last [maxlen] of everything that
    was ever in it or appended to it. *)
Lemma items_extend xs d :
  (List.length (items d) <= maxlen d)%nat ->
  items (extend xs d) = lastn (maxlen d) (items d ++ xs).
Proof.
  intros Hd. induction xs as [|x xs IH] using rev_ind.
  - rewrite app_nil_r. unfold lastn. simpl.
    replace (List.length (items d) - maxlen d)%nat with 0%nat by lia.
    reflexivity.
  - rewrite extend_snoc. unfold append at 1. cbn [items].
    rewrite maxlen_extend, IH, app_assoc. apply lastn_snoc.
Qed.

Lemma length_items_extend xs d :
  (List.length (items d) <= maxlen d)%nat ->
  (List.length (items (extend xs d)) <= maxlen d)%nat.
Proof. intros Hd. rewrite items_extend, length_lastn by exact Hd. lia. Qed.

Lemma append_full x d :
  List.length (items d) = maxlen d -> maxlen d <> 0%nat ->
  items (append x d) = tl (items d) ++ [x].
Proof.
  intros Hlen Hpos. unfold append. cbn [items].
  rewrite length_app. simpl List.length.
  destruct (Nat.ltb_spec (maxlen d) (List.length (items d) + 1)); [|lia].
  destruct (items d); [simpl in Hlen; congruence | reflexivity].
Qed.

Lemma pop_snoc l x n : pop (mk_deque n (l ++ [x])) = Ok (x, mk_deque n l).
Proof. unfold pop. cbn [items maxlen]. rewrite rev_app_distr. simpl. now rewrite rev_involutive. Qed.

Lemma pop_empty n : pop (mk_deque n (@nil A)) = Raise IndexError.
Proof. reflexivity. Qed.

End DequeFacts.

(** C4 (intake boundedness).  For a buffer of capacity 5 within its bound
    and more than 5 appends with no pop in between: after every prefix of the
    appends the buffer holds at most 5 items; an append to a full buffer
    drops its oldest (leftmost) item; and at the end the buffer holds exactly
    the 5 most recent appends, in their order. *)
Theorem intake_bounded {A : Type} (d0 : deque A) (xs : list A)
    (Hcap : maxlen d0 = 5%nat)
    (Hinv : (List.length (items d0) <= 5)%nat)
    (HN : (5 < List.length xs)%nat) :
  (forall n, (List.length (items (extend (firstn n xs) d0)) <= 5)%nat) /\
  (forall n x, List.length (items (extend (firstn n xs) d0)) = 5%nat ->
     items (append x (extend (firstn n xs) d0))
     = tl (items (extend (firstn n xs) d0)) ++ [x]) /\
  items (extend xs d0) = skipn (List.length xs - 5) xs.
Proof.
  assert (Hd : (List.length (items d0) <= maxlen d0)%nat) by lia.
  split; [|split].
  - intros n. rewrite <- Hcap. now apply length_items_extend.
  - intros n x Hfull. apply append_full; rewrite maxlen_extend; lia.
  - rewrite items_extend by exact Hd. rewrite Hcap. unfold lastn.
    rewrite length_app, skipn_app.
    replace (List.length (items d0) + List.length xs - 5 - List.length (items d0))%nat
      with (List.length xs - 5)%nat by lia.
    rewrite skipn_all2 by lia. reflexivity.
Qed.

(** The first buffer of [make_input_queue] after seven appends. *)
Lemma intake_bounded_witness :
  items (extend ["a"; "b"; "c"; "d"; "e"; "f"; "g"]%string (event_q make_input_queue))
  = ["c"; "d"; "e"; "f"; "g"]%string.
Proof.
  refine (proj2 (proj2 (intake_bounded (event_q make_input_queue)
            ["a"; "b"; "c"; "d"; "e"; "f"; "g"]%string _ _ _))).
  - reflexivity.
  - simpl; lia.
  - simpl; lia.
Defined.

(** ** The sampler *)

Lemma feed_all_spec (filter_fn : string -> bool) (evs : list sse_event) (s : intake) :
  feed_all filter_fn evs s
  = {| event_q := extend (accepted filter_fn evs) (event_q s); final_q := final_q s |}.
Proof.
  revert s; induction evs as [|ev evs IH]; intros s.
  - now destruct s.
  - unfold feed_all, accepted in *. cbn [fold_left filter]. rewrite IH.
    unfold feed_event_q.
    destruct ((event ev =? "message")%string && filter_fn (data ev)); reflexivity.
Qed.

Lemma items_append_last {A} (x : A) (d : deque A) :
  maxlen d <> 0%nat -> exists rest, items (append x d) = rest ++ [x].
Proof.
  intros Hpos. unfold append. cbn [items].
  rewrite length_app. simpl List.length.
  destruct (Nat.ltb_spec (maxlen d) (List.length (items d) + 1)).
  - destruct (items d) as [|a l] eqn:E.
    + simpl in *. lia.
    + exists l. reflexivity.
  - exists (items d). reflexivity.
Qed.

Lemma deque_eta {A} (d : deque A) : d = mk_deque (maxlen d) (items d).
Proof. now destruct d. Qed.

(** C5 (sampling fairness).  Let the first buffer have capacity 5 and let
    [evs] be the feed events of one sampling period.  If the filter let at
    least one of them through, the tick of the sampler pops exactly the one
    that arrived last from the first buffer and appends it to the second;
    if none arrived and the first buffer is empty, the tick raises nothing
    and changes neither buffer. *)
Theorem sampling_fairness (filter_fn : string -> bool) (s : intake)
    (evs : list sse_event) (Hcap : maxlen (event_q s) = 5%nat) :
  let s' := feed_all filter_fn evs s in
  (forall earlier last_arrived,
     accepted filter_fn evs = earlier ++ [last_arrived] ->
     exists rest,
       items (event_q s') = rest ++ [last_arrived] /\
       feed_final_q s'
       = Ok {| event_q := mk_deque 5 rest;
               final_q := append last_arrived (final_q s) |}) /\
  (accepted filter_fn evs = [] -> items (event_q s) = [] ->
     s' = s /\ feed_final_q s' = Ok s').
Proof.
  intros s'. subst s'. rewrite feed_all_spec. split.
  - intros earlier last_arrived Hacc. rewrite Hacc, extend_snoc.
    destruct (items_append_last last_arrived (extend earlier (event_q s)))
      as [rest Hrest].
    { rewrite maxlen_extend. lia. }
    exists rest. cbn [event_q final_q]. split; [exact Hrest|].
    unfold feed_final_q. cbn [event_q final_q].
    rewrite (deque_eta (append _ _)), Hrest, pop_snoc.
    rewrite maxlen_append, maxlen_extend, Hcap. reflexivity.
  - intros Hacc Hempty. rewrite Hacc. cbn [extend fold_left].
    split; [now destruct s|].
    unfold feed_final_q, pop. cbn [event_q]. rewrite Hempty. reflexivity.
Qed.


(** Three messages in one period: the third is promoted, the first two
    stay behind in the first buffer. *)
Lemma sampling_fairness_witness :
  feed_final_q (feed_all (fun _ => true) [msg "e1"; msg "e2"; msg "e3"] make_input_queue)
  = Ok {| event_q := mk_deque 5 ["e1"; "e2"]%string;
          final_q := mk_deque 5 ["e3"%string] |}.
Proof.
  destruct (proj1 (sampling_fairness (fun _ => true) make_input_queue
                     [msg "e1"; msg "e2"; msg "e3"] eq_refl)
                  ["e1"; "e2"]%string "e3"%string eq_refl)
    as [rest [Hitems Htick]].
  assert (rest = ["e1"; "e2"]%string) as ->.
  { apply (app_inv_tail ["e3"%string]). rewrite <- Hitems. reflexivity. }
  exact Htick.
Defined.

(** Items left behind by an earlier period are promoted by later ticks even
    when nothing arrives: the tick looks at the buffer, not at the period. *)
Example leftover_promoted :
  feed_final_q {| event_q := mk_deque 5 ["e1"; "e2"]%string;
                  final_q := mk_deque 5 ["e3"%string] |}
  = Ok {| event_q := mk_deque 5 ["e1"%string];
          final_q := mk_deque 5 ["e3"; "e2"]%string |}.
Proof. reflexivity. Qed.

(** ** The pending table *)


Section DictFacts.

Context {V : Type}.
Implicit Types (d : dict V) (k : string) (v : V).

Lemma assoc_None k d : assoc k d = None <-> ~ In k (keys d).
Proof.
  induction d as [|[k' v'] d IH]; simpl.
  - tauto.
  - destruct (String.eqb_spec k k') as [->|Hne].
    + split; [discriminate | intros H; exfalso; apply H; now left].
    + rewrite IH. split; [intros H [E|I]; [congruence | auto] | tauto].
Qed.

Lemma assoc_setitem_eq k v d : assoc k (setitem k v d) = Some v.
Proof.
  induction d as [|[k' v'] d IH]; simpl.
  - now rewrite String.eqb_refl.
  - destruct (String.eqb_spec k k') as [->|Hne]; simpl.
    + now rewrite String.eqb_refl.
    + destruct (String.eqb_spec k k'); [contradiction | exact IH].
Qed.


Lemma In_keys_setitem k k' v d :
  In k' (keys (setitem k v d)) <-> k' = k \/ In k' (keys d).
Proof.
  induction d as [|[k0 v0] d IH]; simpl.
  - intuition congruence.
  - destruct (String.eqb_spec k k0) as [->|Hk]; simpl.
    + intuition congruence.
    + rewrite IH. tauto.
Qed.

Lemma NoDup_setitem k v d : NoDup (keys d) -> NoDup (keys (setitem k v d)).
Proof.
  induction d as [|[k0 v0] d IH]; simpl; intros Hnd.
  - repeat constructor. intros [].
  - inversion Hnd as [|? ? Hnot Hrest]; subst.
    destruct (String.eqb_spec k k0) as [->|Hk]; simpl.
    + now constructor.
    + constructor; [|now apply IH].
      rewrite In_keys_setitem. intros [E|I]; [congruence | contradiction].
Qed.



Lemma assoc_remove_eq k d : NoDup (keys d) -> assoc k (remove k d) = None.
Proof.
  induction d as [|[k0 v0] d IH]; simpl; intros Hnd; [reflexivity|].
  inversion Hnd as [|? ? Hnot Hrest]; subst.
  destruct (String.eqb_spec k k0) as [->|Hk]; simpl.
  - now apply assoc_None.
  - destruct (String.eqb_spec k k0); [contradiction | now apply IH].
Qed.

Lemma assoc_remove_ne k k' d : k' <> k -> assoc k' (remove k d) = assoc k' d.
Proof.
  intros Hne. induction d as [|[k0 v0] d IH]; simpl; [reflexivity|].
  destruct (String.eqb_spec k k0) as [->|Hk]; simpl.
  - destruct (String.eqb_spec k' k0); [contradiction | reflexivity].
  - now rewrite IH.
Qed.



End DictFacts.

(** ** The polling loop *)

Section PollerFacts.

Context {Time : Type} (env : Env Time).
Implicit Types (s : state Time) (page : json) (rev : Revision).

(** The loop body, case by case. *)
Lemma resolve_eq (next : result (string * option Z)) s :
  resolve env next s =
  match next with
  | Ok (t, cur_rev_id) =>
      match Dict.getitem t (revs s) with
      | Ok rev =>
          if satisfied cur_rev_id rev
          then (Ok tt, yield_now env rev (set_revs (remove t (revs s)) s))
          else (Ok tt, s)
      | Raise e => (Raise e, s)
      | IllTyped => (IllTyped, s)
      end
  | Raise e => (Raise e, s)
  | IllTyped => (IllTyped, s)
  end.
Proof.
  unfold resolve, mbind, lift, gets, modify, mret.
  destruct next as [[t cur]|e|]; try reflexivity.
  unfold Dict.getitem, delitem.
  destruct (assoc t (revs s)) as [rev|]; try reflexivity.
  destruct (satisfied cur rev); reflexivity.
Qed.

Lemma satisfied_spec (cur_rev_id : option Z) rev :
  satisfied cur_rev_id rev = true <->
  exists r, cur_rev_id = Some r /\ r <> 0 /\ r >= rev_id rev.
Proof.
  unfold satisfied, truthy. destruct cur_rev_id as [r|].
  - rewrite andb_true_iff, negb_true_iff, Z.eqb_neq, Z.geb_le. split.
    + intros [Hnz Hge]. exists r. repeat split; [assumption | lia].
    + intros [r' [E [Hnz Hge]]]. inversion E; subst. split; [assumption | lia].
  - split; [discriminate | intros [r [E _]]; discriminate].
Qed.

Lemma cirrusdump_nil s : cirrusdump env [] s = (Ok (JDict []), s).
Proof. reflexivity. Qed.

End PollerFacts.

(** C1 (resolution correctness, as the loop has it).  For a pending entry
    with expected revision E whose subject the lookup reports with indexed
    revision R, the loop body raises nothing, and it removes the entry and
    yields it as a measurement exactly when R is present, is not 0 and
    R >= E; otherwise it leaves the whole state as it was.  No other entry
    is touched either way. *)
Theorem resolve_iff {Time : Type} (env : Env Time) (s : state Time)
    (t : string) (R : option Z) (rev : Revision)
    (Hpending : Dict.getitem t (revs s) = Ok rev)
    (Hinv : NoDup (keys (revs s))) :
  let resolves := exists r, R = Some r /\ r <> 0 /\ r >= rev_id rev in
  exists s',
    resolve env (Ok (t, R)) s = (Ok tt, s') /\
    (resolves <->
       Dict.getitem t (revs s') = Raise KeyError /\
       yielded s' = yielded s ++ [(rev, clock env (clock_reads s))]) /\
    (~ resolves -> s' = s) /\
    (forall k, k <> t -> Dict.getitem k (revs s') = Dict.getitem k (revs s)).
Proof.
  intros resolves. rewrite resolve_eq, Hpending.
  destruct (satisfied R rev) eqn:Hsat.
  - assert (Hres : resolves) by (now apply satisfied_spec).
    eexists; split; [reflexivity|]. cbn [revs yielded yield_now set_revs].
    split; [|split].
    + split; [intros _|intros _; exact Hres].
      split; [|reflexivity].
      unfold Dict.getitem. now rewrite assoc_remove_eq.
    + intros Hno. contradiction.
    + intros k Hk. unfold Dict.getitem. now rewrite assoc_remove_ne.
  - assert (Hres : ~ resolves).
    { intros H. apply satisfied_spec in H. congruence. }
    exists s. split; [reflexivity|]. split; [|split].
    + split; [intros H; contradiction|].
      intros [Hgone _]. congruence.
    + reflexivity.
    + reflexivity.
Qed.

(** C10 (indexed revision 0).  When the lookup reports revision 0 for a
    pending subject, the loop body keeps the entry and yields nothing,
    whatever the expected revision is, 0 and negative ones included. *)
Theorem zero_revision_unresolved {Time : Type} (env : Env Time)
    (s : state Time) (t : string) (rev : Revision)
    (Hpending : Dict.getitem t (revs s) = Ok rev) :
  resolve env (Ok (t, Some 0)) s = (Ok tt, s).
Proof.
  rewrite resolve_eq, Hpending. reflexivity.
Qed.

(** C7 (empty batch).  For no titles [cirrusdump] returns the empty mapping
    and leaves the state, in particular the log of issued requests, as it
    was; the mapping has no pages to visit. *)
Theorem empty_batch_short_circuit {Time : Type} (env : Env Time) (s : state Time) :
  cirrusdump env [] s = (Ok (JDict []), s) /\
  requests (snd (cirrusdump env [] s)) = requests s /\
  Json.values (JDict []) = Ok [].
Proof. repeat split. Qed.

(** ** The indexed revision of a page *)

Lemma mapM_Forall2 {A B} (f : A -> result B) (l : list A) (l' : list B) :
  Forall2 (fun a b => f a = Ok b) l l' -> mapM f l = Ok l'.
Proof.
  induction 1 as [|a b l l' Hab _ IH]; simpl; [reflexivity|].
  now rewrite Hab, IH.
Qed.

Lemma fold_max_upper (l : list Z) (x : Z) :
  x <= fold_left Z.max l x /\ forall v, In v l -> v <= fold_left Z.max l x.
Proof.
  revert x; induction l as [|y l IH]; intros x; simpl.
  - split; [lia | intros v []].
  - destruct (IH (Z.max x y)) as [Hx Hl]. split; [lia|].
    intros v [<-|Hv]; [lia | auto].
Qed.

Lemma fold_max_In (l : list Z) (x : Z) : In (fold_left Z.max l x) (x :: l).
Proof.
  revert x; induction l as [|y l IH]; intros x; simpl.
  - now left.
  - destruct (IH (Z.max x y)) as [E|I].
    + rewrite <- E. destruct (Z.max_spec x y) as [[_ ->]|[_ ->]]; auto.
    + auto.
Qed.

(** [max] returns the greatest item of a sequence that has one. *)
Lemma max_spec (l : list Z) (m : Z) :
  Py.max l = Ok m <-> In m l /\ forall v, In v l -> v <= m.
Proof.
  destruct l as [|x l]; unfold Py.max.
  - split; [discriminate | intros [[] _]].
  - pose proof (fold_max_In l x) as Hin. pose proof (fold_max_upper l x) as [Hx Hl].
    split.
    + intros E. inversion E; subst. split; [exact Hin|].
      intros v [<-|Hv]; auto.
    + intros [Hm Hub]. f_equal. apply Z.le_antisymm.
      * now apply Hub.
      * destruct Hm as [<-|Hm]; auto.
Qed.

(** C9 (indexed-revision extraction).  For a page of the response with a
    title and per-shard documents carrying versions [vs], the pair computed
    for the page is its title with the greatest of [vs]; when the document
    list is absent or empty the revision is [None] and nothing is raised. *)
Theorem indexed_revision_is_max (page : json) (title : string) (docs : list json)
    (vs : list Z)
    (Htitle : Json.getitem page "title" = Ok (JStr title))
    (Hdocs : page_docs page docs)
    (Hvs : Forall2 (fun doc v => doc_version doc = Ok (JInt v)) docs vs) :
  exists R,
    page_rev page = Ok (title, R) /\
    (docs = [] -> R = None) /\
    (docs <> [] ->
       exists m, R = Some m /\ In m vs /\ forall v, In v vs -> v <= m).
Proof.
  destruct Hdocs as [kv [-> Hkv]].
  assert (Hget : Json.get (JDict kv) "cirrusdoc" (JList []) = Ok (JList docs)).
  { unfold Json.get. destruct Hkv as [->|[-> ->]]; reflexivity. }
  assert (Hversions : mapM doc_version docs = Ok (map JInt vs)).
  { apply mapM_Forall2. clear -Hvs. induction Hvs; simpl; constructor; auto. }
  assert (Hints : mapM as_int (map JInt vs) = Ok vs).
  { apply mapM_Forall2. clear. induction vs; simpl; constructor; auto. }
  unfold page_rev. rewrite Hget. cbn [bind Json.iter].
  rewrite Hversions. cbn [bind]. rewrite Hints. cbn [bind].
  rewrite Htitle. cbn [bind as_str].
  eexists; split; [reflexivity|]. split.
  - intros ->. inversion Hvs; subst. reflexivity.
  - intros Hne. destruct vs as [|v0 vs'].
    + inversion Hvs; subst. contradiction.
    + exists (fold_left Z.max vs' v0). split; [reflexivity|].
      now apply max_spec.
Qed.

(** ** Draining the queue *)

Section FillRevs.

Context {Time : Type} (env : Env Time).
Implicit Types (s : state Time) (d : dict Revision).

Lemma parse_revision_malformed raw :
  json_loads env raw = None -> parse_revision env raw = Raise JSONDecodeError.
Proof. intros H. unfold parse_revision, loads. now rewrite H. Qed.

Lemma fill_revs_loop_ok todo rs d :
  mapM (parse_revision env) todo = Ok rs ->
  fill_revs_loop env todo d = (Ok tt, [], upsert_all rs d).
Proof.
  revert rs d; induction todo as [|raw todo IH]; intros rs d H; simpl in H.
  - inversion H; subst. reflexivity.
  - destruct (parse_revision env raw) as [r| |] eqn:Hraw; try discriminate.
    simpl in H.
    destruct (mapM (parse_revision env) todo) as [rs'| |]; try discriminate.
    inversion H; subst. cbn [fill_revs_loop]. rewrite Hraw.
    now rewrite (IH rs').
Qed.

Lemma fill_revs_loop_raise before raw after rs d (r : result Revision) :
  mapM (parse_revision env) before = Ok rs ->
  parse_revision env raw = r -> (forall rev, r <> Ok rev) ->
  fill_revs_loop env (before ++ raw :: after) d
  = (match r with Ok _ => Ok tt | Raise e => Raise e | IllTyped => IllTyped end,
     after, upsert_all rs d).
Proof.
  revert rs d; induction before as [|b before IH]; intros rs d H Hraw Hr; simpl in H.
  - inversion H; subst. cbn [app fill_revs_loop]. 
    destruct (parse_revision env raw) as [rev| |]; [now elim (Hr rev) | reflexivity..].
  - destruct (parse_revision env b) as [rb| |] eqn:Hb; try discriminate.
    simpl in H.
    destruct (mapM (parse_revision env) before) as [rs'| |]; try discriminate.
    inversion H; subst. cbn [app fill_revs_loop]. rewrite Hb.
    now rewrite (IH rs').
Qed.

Lemma single_entries_upsert_all rs d :
  NoDup (keys d) -> NoDup (keys (upsert_all rs d)).
Proof.
  revert d; induction rs as [|r rs IH]; intros d H; [exact H|].
  apply IH. now apply NoDup_setitem.
Qed.


Lemma fill_revs_eq s :
  fill_revs env s =
  (fst (fst (fill_revs_loop env (rev (items (q s))) (revs s))),
   mk_state
     (mk_deque (maxlen (q s))
               (rev (snd (fst (fill_revs_loop env (rev (items (q s))) (revs s))))))
     (snd (fill_revs_loop env (rev (items (q s))) (revs s)))
     (requests s) (clock_reads s) (sleeps s) (yielded s)).
Proof.
  unfold fill_revs.
  now destruct (fill_revs_loop env (rev (items (q s))) (revs s)) as [[r todo'] d'].
Qed.

End FillRevs.

(** ** The invariant of the pending table *)

Section Invariant.

Context {Time : Type} (env : Env Time).














End Invariant.

(** What a drain leaves under the subjects it does and does not meet. *)
Section UpsertFacts.

Implicit Types (d : dict Revision) (rs : list Revision) (k : string).






End UpsertFacts.


(** C2 (a malformed payload, as the loop has it).  If the payload of an
    item popped while draining the queue is not parseable JSON, the decode
    error is not caught: it leaves [fill_revs] and the polling loop, which
    stops there.  The items popped before it have been upserted, the
    malformed item is gone from the queue, the items below it stay in the
    queue unprocessed, and no lookup is made. *)
Theorem malformed_payload_is_fatal {Time : Type} (env : Env Time) (n : nat)
    (s : state Time) (before after : list string) (raw : string)
    (rs : list Revision)
    (Hq : rev (items (q s)) = before ++ raw :: after)
    (Hbefore : mapM (parse_revision env) before = Ok rs)
    (Hraw : json_loads env raw = None) :
  monitor_latency env (S n) s
  = (Raise JSONDecodeError,
     mk_state (mk_deque (maxlen (q s)) (rev after)) (upsert_all rs (revs s))
              (requests s) (clock_reads s) (sleeps s) (yielded s)).
Proof.
  cbn [monitor_latency]. unfold poll_cycle, mbind at 1 2.
  rewrite fill_revs_eq, Hq.
  rewrite (fill_revs_loop_raise env before raw after rs (revs s) (Raise JSONDecodeError) Hbefore);
    [reflexivity | now apply parse_revision_malformed | discriminate].
Qed.

(** C8 (a failed lookup is fatal).  When the queue has been drained, some
    subject is pending and the lookup fails with [e] at the network or HTTP
    level, the polling loop stops with [e], however many turns it was to
    make: the one request is on the log and is not repeated, the pending
    table is as the drain left it, nothing is yielded and the loop does not
    sleep. *)
Theorem lookup_failure_is_fatal {Time : Type} (env : Env Time) (n : nat)
    (s s1 : state Time) (e : exn)
    (Hdrain : fill_revs env s = (Ok tt, s1))
    (Hpending : join "|" (keys (revs s1)) <> EmptyString)
    (Hfail : lookup_fails env (List.length (requests s1))
                          (join "|" (keys (revs s1))) e) :
  monitor_latency env (S n) s
  = (Raise e, log_request (join "|" (keys (revs s1))) s1) /\
  requests (log_request (join "|" (keys (revs s1))) s1)
  = requests s ++ [join "|" (keys (revs s1))] /\
  revs (log_request (join "|" (keys (revs s1))) s1) = revs s1 /\
  yielded (log_request (join "|" (keys (revs s1))) s1) = yielded s /\
  sleeps (log_request (join "|" (keys (revs s1))) s1) = sleeps s.
Proof.
  assert (Hframe : requests s1 = requests s /\ yielded s1 = yielded s /\
                   sleeps s1 = sleeps s).
  { rewrite fill_revs_eq in Hdrain. inversion Hdrain; subst. now cbn. }
  destruct Hframe as [Hreq [Hy Hsl]].
  split; [|cbn [log_request requests revs yielded sleeps]; rewrite Hreq; auto].
  assert (Hdump : cirrusdump env (keys (revs s1)) s1
                  = (Raise e, log_request (join "|" (keys (revs s1))) s1)).
  { unfold cirrusdump.
    destruct (String.eqb_spec (join "|" (keys (revs s1))) EmptyString) as [E|_];
      [contradiction|].
    unfold mbind, gets, modify, lift.
    destruct Hfail as [Hget | [res [Hget Hstatus]]].
    - rewrite Hget. reflexivity.
    - rewrite Hget, Hstatus. reflexivity. }
  cbn [monitor_latency]. unfold poll_cycle, current_search_rev, mbind, gets.
  rewrite Hdrain, Hdump. reflexivity.
Qed.

(** ** Scenarios *)

Lemma resolve_iff_witness :
  exists s',
    resolve sample_env (page_rev (cirrus_page "X" (Some [7; 6])))
      (state_with [] (pending_x 7))
    = (Ok tt, s') /\
    ((exists r, Some 7 = Some r /\ r <> 0 /\ r >= 7) <->
       Dict.getitem "X" (revs s') = Raise KeyError /\
       yielded s' = [(mk_Revision "X" 7 100, 1060)]) /\
    (~ (exists r, Some 7 = Some r /\ r <> 0 /\ r >= 7) ->
       s' = state_with [] (pending_x 7)) /\
    (forall k, k <> "X"%string ->
       Dict.getitem k (revs s') = Dict.getitem k (pending_x 7)).
Proof.
  apply (resolve_iff sample_env (state_with [] (pending_x 7)) "X" (Some 7)
           (mk_Revision "X" 7 100)).
  - reflexivity.
  - simpl. constructor; [intros [] | constructor].
Defined.

(** The three cases the specification names: revision 6 against expected
    revision 7 leaves the entry pending, revision 7 resolves and removes
    it, and a subject without documents stays pending. *)
Example resolve_6_against_7 :
  resolve sample_env (page_rev (cirrus_page "X" (Some [6]))) (state_with [] (pending_x 7))
  = (Ok tt, state_with [] (pending_x 7)).
Proof. reflexivity. Qed.

Example resolve_7_against_7 :
  resolve sample_env (page_rev (cirrus_page "X" (Some [7]))) (state_with [] (pending_x 7))
  = (Ok tt, mk_state (mk_deque 5 []) [] [] 1%nat 0%nat
                     [(mk_Revision "X" 7 100, 1060)]).
Proof. reflexivity. Qed.

Example resolve_unknown :
  resolve sample_env (page_rev (cirrus_page "X" None)) (state_with [] (pending_x 7))
  = (Ok tt, state_with [] (pending_x 7)).
Proof. reflexivity. Qed.

(** C1 as stated fails: the lookup reports revision 0 for X, which is
    present and not below the expected revision 0, and the entry stays
    pending with nothing yielded, in the loop body and over two turns of
    the loop. *)
Lemma resolution_fails_at_zero :
  page_rev (cirrus_page "X" (Some [0])) = Ok ("X"%string, Some 0) /\
  Dict.getitem "X" (pending_x 0) = Ok (mk_Revision "X" 0 100) /\
  0 >= rev_id (mk_Revision "X" 0 100) /\
  resolve sample_env (page_rev (cirrus_page "X" (Some [0]))) (state_with [] (pending_x 0))
  = (Ok tt, state_with [] (pending_x 0)) /\
  monitor_latency sample_env 2 (state_with [compact x_0] [])
  = (Ok tt, mk_state (mk_deque 5 []) (pending_x 0) ["X"; "X"]%string 0%nat 2%nat []).
Proof.
  split; [reflexivity|]. split; [reflexivity|]. split; [simpl; lia|].
  split; [reflexivity | vm_compute; reflexivity].
Qed.

Lemma zero_revision_unresolved_witness :
  resolve sample_env (page_rev (cirrus_page "X" (Some [0]))) (state_with [] (pending_x (-3)))
  = (Ok tt, state_with [] (pending_x (-3))).
Proof.
  apply (zero_revision_unresolved sample_env (state_with [] (pending_x (-3))) "X"
           (mk_Revision "X" (-3) 100)).
  reflexivity.
Defined.

Lemma indexed_revision_is_max_witness :
  exists R,
    page_rev (cirrus_page "Q1" (Some [40; 42; 41])) = Ok ("Q1"%string, R) /\
    (map cirrus_doc [40; 42; 41] = [] -> R = None) /\
    (map cirrus_doc [40; 42; 41] <> [] ->
       exists m, R = Some m /\ In m [40; 42; 41] /\
                 forall v, In v [40; 42; 41] -> v <= m).
Proof.
  apply (indexed_revision_is_max (cirrus_page "Q1" (Some [40; 42; 41])) "Q1"
           (map cirrus_doc [40; 42; 41]) [40; 42; 41]).
  - reflexivity.
  - eexists. split; [reflexivity|]. left. reflexivity.
  - repeat constructor.
Defined.

Example indexed_revision_absent :
  page_rev (cirrus_page "Q1" None) = Ok ("Q1"%string, None) /\
  page_rev (cirrus_page "Q1" (Some [])) = Ok ("Q1"%string, None).
Proof. split; reflexivity. Qed.



(** The queue is drained from its right end, the most recent sample first:
    of two samples of one subject in one drain, the one sampled earlier is
    upserted last and is the one that stays. *)
Example drain_order :
  fill_revs sample_env (state_with [compact x_7; compact x_5] [])
  = (Ok tt, state_with [] (pending_x_at 7 700)) /\
  fill_revs sample_env (state_with [compact x_5; compact x_7] [])
  = (Ok tt, state_with [] (pending_x_at 5 500)).
Proof. split; vm_compute; reflexivity. Qed.

(** C2 as stated fails: with a well-formed sample and the text of an open
    brace queued behind it, the decode error of the latter stops the loop;
    the well-formed sample is neither processed nor looked up. *)
Lemma malformed_payload_not_skipped :
  json_loads sample_env "{" = None /\
  parse_revision sample_env (compact q1_42) = Ok (mk_Revision "Q1" 42 1000) /\
  monitor_latency sample_env 1 (state_with [compact q1_42; "{"%string] [])
  = (Raise JSONDecodeError, state_with [compact q1_42] []).
Proof. repeat split; vm_compute; reflexivity. Qed.

Lemma malformed_payload_is_fatal_witness :
  monitor_latency sample_env 3
    (state_with [compact q1_42; "{"%string; compact x_5] [])
  = (Raise JSONDecodeError,
     mk_state (mk_deque 5 (rev [compact q1_42]))
              (upsert_all [mk_Revision "X" 5 500] []) [] 0%nat 0%nat []).
Proof.
  apply (malformed_payload_is_fatal sample_env 2
           (state_with [compact q1_42; "{"%string; compact x_5] [])
           [compact x_5] [compact q1_42] "{" [mk_Revision "X" 5 500]).
  - reflexivity.
  - vm_compute. reflexivity.
  - vm_compute. reflexivity.
Defined.

Lemma lookup_failure_is_fatal_witness :
  monitor_latency sample_env 3 (state_with [compact x_5; compact q1_42] [])
  = (Raise HTTPError,
     mk_state (mk_deque 5 [])
              [("Q1"%string, mk_Revision "Q1" 42 1000);
               ("X"%string, mk_Revision "X" 5 500)]
              ["Q1|X"%string] 0%nat 0%nat []).
Proof.
  refine (proj1 (lookup_failure_is_fatal sample_env 2
           (state_with [compact x_5; compact q1_42] [])
           (state_with [] [("Q1"%string, mk_Revision "Q1" 42 1000);
                           ("X"%string, mk_Revision "X" 5 500)])
           HTTPError _ _ _)).
  - vm_compute. reflexivity.
  - vm_compute. discriminate.
  - right. eexists. split; vm_compute; reflexivity.
Defined.

(** The scenario of the specification: the feed emits an edit of Q1 to
    revision 42 at time 1000; the filter accepts it and the sampler
    promotes it; the first lookup finds revision 41 and the entry stays
    pending; the second finds revision 42 and the entry is yielded with
    the reading of the clock. *)
Example end_to_end :
  input_filter (compact q1_42) = true /\
  (exists event_q',
     feed_final_q (feed_all input_filter [msg (compact q1_42)] make_input_queue)
     = Ok {| event_q := event_q'; final_q := mk_deque 5 [compact q1_42] |}) /\
  monitor_latency sample_env 1 (state_with [compact q1_42] [])
  = (Ok tt, mk_state (mk_deque 5 []) [("Q1"%string, mk_Revision "Q1" 42 1000)]
                     ["Q1"%string] 0%nat 1%nat []) /\
  monitor_latency sample_env 2 (state_with [compact q1_42] [])
  = (Ok tt, mk_state (mk_deque 5 []) [] ["Q1"; "Q1"]%string 1%nat 2%nat
                     [(mk_Revision "Q1" 42 1000, 1060)]).
Proof.
  split; [vm_compute; reflexivity|]. split; [eexists; vm_compute; reflexivity|].
  split; vm_compute; reflexivity.
Qed.

(** X21.  With nothing queued and nothing pending a turn of the loop only sleeps:
    no request is issued. *)
Lemma idle_cycle_makes_no_request {Time : Type} (env : Env Time) (s : state Time) :
  items (q s) = [] -> revs s = [] ->
  fst (poll_cycle env s) = Ok tt /\
  requests (snd (poll_cycle env s)) = requests s /\
  sleeps (snd (poll_cycle env s)) = S (sleeps s).
Proof.
  intros Hq Hrevs.
  assert (E : poll_cycle env s
              = (Ok tt,
                 mk_state (extend (sampled env (sleeps s)) (mk_deque (maxlen (q s)) []))
                          [] (requests s) (clock_reads s) (S (sleeps s)) (yielded s))).
  { unfold poll_cycle, mbind. rewrite fill_revs_eq, Hq, Hrevs. reflexivity. }
  rewrite E. repeat split.
Qed.

(** * Further properties of the code *)

(** ** The intake under any schedule of its two threads *)

Lemma length_items_append {A} (x : A) (d : deque A) :
  (List.length (items d) <= maxlen d)%nat ->
  (List.length (items (append x d)) <= maxlen d)%nat.
Proof. intros H. apply (length_items_extend [x] d H). Qed.

Lemma In_items_append {A} (x y : A) (d : deque A) :
  In y (items (append x d)) -> y = x \/ In y (items d).
Proof.
  unfold append. cbn [items]. intros H.
  assert (Hin : In y (items d ++ [x])).
  { destruct (_ <? _)%nat; [|exact H].
    destruct (items d ++ [x]); [destruct H | now right]. }
  apply in_app_or in Hin. destruct Hin as [Hin|[<-|[]]]; auto.
Qed.

Lemma pop_inv {A} (d d' : deque A) (x : A) :
  pop d = Ok (x, d') ->
  items d = items d' ++ [x] /\ maxlen d' = maxlen d.
Proof.
  unfold pop. destruct (rev (items d)) as [|y r] eqn:E; [discriminate|].
  intros H. inversion H; subst. cbn [items maxlen]. split; [|reflexivity].
  rewrite <- (rev_involutive (items d)), E. reflexivity.
Qed.

Lemma feed_final_q_cases (s : intake) :
  (items (event_q s) = [] /\ feed_final_q s = Ok s) \/
  (exists rest x,
     items (event_q s) = rest ++ [x] /\
     feed_final_q s
     = Ok {| event_q := mk_deque (maxlen (event_q s)) rest;
             final_q := append x (final_q s) |}).
Proof.
  unfold feed_final_q.
  destruct (items (event_q s)) as [|a l] eqn:E using rev_ind.
  - left. split; [reflexivity|]. unfold pop. now rewrite E.
  - right. exists l, a. split; [reflexivity|].
    rewrite (deque_eta (event_q s)), E, pop_snoc. reflexivity.
Qed.

Lemma bounded_intake_step (filter_fn : string -> bool) (op : intake_op) (s : intake) :
  bounded_intake s ->
  exists s', intake_step filter_fn op s = Ok s' /\ bounded_intake s'.
Proof.
  intros (Ha & Hb & Hla & Hlb). destruct op as [ev|]; cbn [intake_step].
  - eexists; split; [reflexivity|]. unfold feed_event_q.
    destruct (_ && _); [|now repeat split].
    repeat split; cbn [event_q final_q]; rewrite ?maxlen_append; auto.
    rewrite <- Ha. apply length_items_append. lia.
  - destruct (feed_final_q_cases s) as [[_ ->]|(rest & x & Hitems & ->)].
    + exists s. now repeat split.
    + eexists; split; [reflexivity|].
      repeat split; cbn [event_q final_q maxlen items]; rewrite ?maxlen_append; auto.
      * rewrite Hitems, length_app in Hla. simpl in Hla. lia.
      * rewrite <- Hb. apply length_items_append. lia.
Qed.

Lemma bounded_intake_run (filter_fn : string -> bool) (ops : list intake_op) (s : intake) :
  bounded_intake s ->
  exists s', intake_run filter_fn ops s = Ok s' /\ bounded_intake s'.
Proof.
  revert s; induction ops as [|op ops IH]; intros s Hs; cbn [intake_run].
  - now exists s.
  - destruct (bounded_intake_step filter_fn op s Hs) as (s1 & -> & Hs1).
    cbn [bind]. now apply IH.
Qed.

Lemma make_input_queue_bounded : bounded_intake make_input_queue.
Proof. unfold bounded_intake. cbn. repeat split; lia. Qed.

(** X1.  Whatever the feed sends and however the two threads of
    [make_input_queue] interleave, no iteration raises, and both deques
    keep their capacity of 5 and never hold more than 5 items. *)
Theorem intake_never_overflows (filter_fn : string -> bool) (ops : list intake_op) :
  exists s',
    intake_run filter_fn ops make_input_queue = Ok s' /\ bounded_intake s'.
Proof.
  apply bounded_intake_run. exact make_input_queue_bounded.
Qed.

Lemma In_accepted (filter_fn : string -> bool) (evs : list sse_event) (x : string) :
  In x (accepted filter_fn evs) <->
  exists ev, In ev evs /\ event ev = "message"%string /\
             filter_fn (data ev) = true /\ data ev = x.
Proof.
  unfold accepted. rewrite in_map_iff. split.
  - intros (ev & Hx & Hin). apply filter_In in Hin. destruct Hin as [Hin Hok].
    apply andb_true_iff in Hok. destruct Hok as [Hm Hf].
    apply String.eqb_eq in Hm. now exists ev.
  - intros (ev & Hin & Hm & Hf & Hx). exists ev. split; [exact Hx|].
    apply filter_In. split; [exact Hin|].
    apply andb_true_iff. split; [now apply String.eqb_eq | exact Hf].
Qed.

Lemma intake_run_items (filter_fn : string -> bool) (ops : list intake_op)
    (s s' : intake) (P : string -> Prop) :
  intake_run filter_fn ops s = Ok s' ->
  (forall x, In x (items (event_q s) ++ items (final_q s)) -> P x) ->
  (forall x, In x (accepted filter_fn (fed ops)) -> P x) ->
  forall x, In x (items (event_q s') ++ items (final_q s')) -> P x.
Proof.
  revert s; induction ops as [|op ops IH]; intros s Hrun Hs Hfed; cbn [intake_run] in Hrun.
  - inversion Hrun; subst. exact Hs.
  - destruct op as [ev|]; cbn [intake_step bind fed] in *.
    + apply (IH _ Hrun).
      * intros x Hx. unfold feed_event_q in Hx.
        destruct (_ && _) eqn:Hok; [|now apply Hs].
        cbn [event_q final_q] in Hx. apply in_app_or in Hx.
        destruct Hx as [Hx|Hx]; [|apply Hs, in_or_app; now right].
        apply In_items_append in Hx. destruct Hx as [->|Hx].
        -- apply Hfed. unfold accepted. cbn [filter]. rewrite Hok. now left.
        -- apply Hs, in_or_app. now left.
      * intros x Hx. apply Hfed. unfold accepted in *. cbn [filter].
        destruct (_ && _); [now right | exact Hx].
    + destruct (feed_final_q_cases s) as [[_ E]|(rest & y & Hitems & E)];
        rewrite E in Hrun; cbn [bind] in Hrun.
      * now apply (IH _ Hrun).
      * apply (IH _ Hrun); [|exact Hfed].
        intros x Hx. cbn [event_q final_q items] in Hx. apply Hs.
        rewrite Hitems. apply in_app_or in Hx. apply in_or_app.
        destruct Hx as [Hx|Hx].
        -- left. apply in_or_app. now left.
        -- apply In_items_append in Hx. destruct Hx as [->|Hx].
           ++ left. apply in_or_app. right. now left.
           ++ now right.
Qed.

(** X2.  Under any schedule, every payload found in either deque is the
    data of a [message] event that the feed sent and that the filter
    accepted: nothing refused, and nothing of another event kind, is ever
    queued or promoted. *)
Theorem intake_only_accepted (filter_fn : string -> bool) (ops : list intake_op) :
  exists s',
    intake_run filter_fn ops make_input_queue = Ok s' /\
    forall x, In x (items (event_q s') ++ items (final_q s')) ->
      exists ev, In ev (fed ops) /\ event ev = "message"%string /\
                 filter_fn (data ev) = true /\ data ev = x.
Proof.
  destruct (bounded_intake_run filter_fn ops _ make_input_queue_bounded)
    as (s' & Hrun & _).
  exists s'. split; [exact Hrun|].
  intros x Hx. apply In_accepted.
  apply (intake_run_items filter_fn ops make_input_queue s'
           (fun x => In x (accepted filter_fn (fed ops))) Hrun); auto.
  intros y [].
Qed.

(** X3.  When the feed is silent, successive ticks of the sampler empty
    the first deque from its right end: as many ticks as it holds items
    promote all of them, the most recent first. *)
Theorem ticks_promote_newest_first (filter_fn : string -> bool) (s : intake) :
  intake_run filter_fn (repeat Tick (List.length (items (event_q s)))) s
  = Ok {| event_q := mk_deque (maxlen (event_q s)) [];
          final_q := extend (rev (items (event_q s))) (final_q s) |}.
Proof.
  remember (items (event_q s)) as l eqn:Hl.
  revert s Hl; induction l as [|x l IH] using rev_ind; intros s Hl.
  - cbn. destruct s as [[m a] b]. cbn in *. now subst.
  - rewrite length_app, Nat.add_comm. cbn [List.length Nat.add repeat intake_run intake_step].
    destruct (feed_final_q_cases s) as [[E _]|(rest & y & Hitems & ->)].
    + rewrite E in Hl. now destruct l.
    + rewrite <- Hl in Hitems. apply app_inj_tail in Hitems.
      destruct Hitems as [-> ->]. cbn [bind].
      rewrite (IH {| event_q := mk_deque (maxlen (event_q s)) rest;
                     final_q := append y (final_q s) |} eq_refl).
      cbn [event_q final_q maxlen].
      rewrite rev_app_distr. reflexivity.
Qed.

(** ** The filter *)

Lemma contains_embedded (needle pre p post : string) :
  contains needle p = true -> contains needle (pre ++ p ++ post) = true.
Proof.
  rewrite !contains_spec. intros (a & b & ->).
  exists (pre ++ a)%string, (b ++ post)%string.
  induction pre as [|c pre IH]; cbn.
  - induction a as [|c a IHa]; cbn; [|now rewrite IHa].
    induction needle as [|c n IHn]; cbn; [reflexivity | now rewrite IHn].
  - now rewrite IH.
Qed.

(** X4.  The filter looks for its three texts anywhere: a payload that it
    accepts is still accepted with any text put before and after it. *)
Theorem input_filter_embedding (pre payload post : string) :
  input_filter payload = true ->
  input_filter (pre ++ payload ++ post) = true.
Proof.
  unfold input_filter. rewrite !andb_true_iff, !orb_true_iff.
  intros [Hd [He|Hn]]; (split; [now apply contains_embedded|]);
    [left | right]; now apply contains_embedded.
Qed.

Lemma input_filter_embedding_witness :
  input_filter ("data: " ++ payload_of "www.wikidata.org" "edit" ++ " trailing") = true.
Proof.
  apply (input_filter_embedding "data: " (payload_of "www.wikidata.org" "edit")
           " trailing").
  reflexivity.
Defined.

(** ** The lookup *)

Lemma join_empty_iff (l : list string) :
  join "|" l = EmptyString <-> l = [] \/ l = [EmptyString].
Proof.
  destruct l as [|x [|y l]]; cbn [join].
  - split; auto.
  - split; [intros ->; now right | intros [E|E]; [discriminate | now inversion E]].
  - split; [|intros [E|E]; discriminate].
    destruct x; discriminate.
Qed.

(** X5.  [cirrusdump] makes no request exactly for no titles and for the
    single empty title, returning the empty mapping; for every other batch
    it issues one GET with the titles joined by [|] and, whatever the
    answer or the exception, changes nothing else in the state. *)
Theorem cirrusdump_one_request {Time : Type} (env : Env Time) (titles : list string)
    (s : state Time) :
  ((titles = [] \/ titles = [EmptyString]) ->
     cirrusdump env titles s = (Ok (JDict []), s)) /\
  (~ (titles = [] \/ titles = [EmptyString]) ->
     snd (cirrusdump env titles s) = log_request (join "|" titles) s).
Proof.
  unfold cirrusdump. split; intros H.
  - apply join_empty_iff in H. rewrite H. reflexivity.
  - destruct (String.eqb_spec (join "|" titles) EmptyString) as [E|_].
    + apply join_empty_iff in E. contradiction.
    + unfold mbind, gets, modify, lift.
      destruct (requests_get env _ _) as [res|e|]; try reflexivity.
      destruct (raise_for_status res); reflexivity.
Qed.

(** ** The pair of a page *)

Lemma max_permutation (l l' : list Z) : Permutation l l' -> Py.max l = Py.max l'.
Proof.
  intros HP. destruct (Py.max l) as [m| |] eqn:E.
  - symmetry. apply max_spec. apply max_spec in E. destruct E as [Hin Hub].
    split; [now apply (Permutation_in _ HP)|].
    intros v Hv. apply Hub. now apply (Permutation_in _ (Permutation_sym HP)).
  - destruct l; [|discriminate]. apply Permutation_nil in HP. now subst.
  - destruct l; discriminate.
Qed.

(** The pair of a well-formed page, as a function of its versions. *)
Lemma page_rev_eq (page : json) (title : string) (docs : list json) (vs : list Z) :
  Json.getitem page "title" = Ok (JStr title) ->
  page_docs page docs ->
  Forall2 (fun doc v => doc_version doc = Ok (JInt v)) docs vs ->
  page_rev page
  = Ok (title, match Py.max vs with Ok m => Some m | _ => None end).
Proof.
  intros Htitle (kv & -> & Hkv) Hvs.
  assert (Hget : Json.get (JDict kv) "cirrusdoc" (JList []) = Ok (JList docs)).
  { unfold Json.get. destruct Hkv as [->|[-> ->]]; reflexivity. }
  assert (Hversions : mapM doc_version docs = Ok (map JInt vs)).
  { apply mapM_Forall2. clear -Hvs. induction Hvs; simpl; constructor; auto. }
  assert (Hints : mapM as_int (map JInt vs) = Ok vs).
  { apply mapM_Forall2. clear. induction vs; simpl; constructor; auto. }
  unfold page_rev. rewrite Hget. cbn [bind Json.iter].
  rewrite Hversions. cbn [bind]. rewrite Hints. cbn [bind].
  rewrite Htitle. reflexivity.
Qed.

(** X6.  The indexed revision of a page does not depend on the order in
    which its per-shard documents are listed: two pages of one title whose
    documents carry the same versions in another order give the same
    pair. *)
Theorem indexed_revision_order_irrelevant (page page' : json) (title : string)
    (docs docs' : list json) (vs vs' : list Z)
    (Htitle : Json.getitem page "title" = Ok (JStr title))
    (Htitle' : Json.getitem page' "title" = Ok (JStr title))
    (Hdocs : page_docs page docs) (Hdocs' : page_docs page' docs')
    (Hvs : Forall2 (fun doc v => doc_version doc = Ok (JInt v)) docs vs)
    (Hvs' : Forall2 (fun doc v => doc_version doc = Ok (JInt v)) docs' vs')
    (Hperm : Permutation vs vs') :
  page_rev page = page_rev page'.
Proof.
  rewrite (page_rev_eq page title docs vs), (page_rev_eq page' title docs' vs');
    try assumption.
  now rewrite (max_permutation vs vs').
Qed.

Lemma indexed_revision_order_irrelevant_witness :
  page_rev (cirrus_page "Q1" (Some [40; 42; 41]))
  = page_rev (cirrus_page "Q1" (Some [42; 41; 40])).
Proof.
  apply (indexed_revision_order_irrelevant _ _ "Q1"
           (map cirrus_doc [40; 42; 41]) (map cirrus_doc [42; 41; 40])
           [40; 42; 41] [42; 41; 40]).
  - reflexivity.
  - reflexivity.
  - eexists. split; [reflexivity|]. left. reflexivity.
  - eexists. split; [reflexivity|]. left. reflexivity.
  - repeat constructor.
  - repeat constructor.
  - apply perm_trans with (l' := [42; 40; 41]).
    + apply perm_swap.
    + apply perm_skip. apply perm_swap.
Defined.

Lemma mapM_raise {A B} (f : A -> result B) (pre post : list A) (a : A)
    (bs : list B) (e : exn) :
  mapM f pre = Ok bs -> f a = Raise e -> mapM f (pre ++ a :: post) = Raise e.
Proof.
  revert bs; induction pre as [|p pre IH]; intros bs Hpre Ha; cbn [app mapM].
  - now rewrite Ha.
  - cbn [mapM] in Hpre. destruct (f p) as [b| |]; try discriminate.
    cbn [bind] in *. destruct (mapM f pre) as [bs'| |] eqn:E; try discriminate.
    now rewrite (IH bs').
Qed.

(** X7.  A page without a [title] key raises KeyError, also when its
    documents are in order and a revision could be computed. *)
Theorem page_without_title_raises (kv : list (string * json)) (docs : list json)
    (vs : list Z)
    (Hdocs : page_docs (JDict kv) docs)
    (Hvs : Forall2 (fun doc v => doc_version doc = Ok (JInt v)) docs vs)
    (Htitle : assoc "title"%string kv = None) :
  page_rev (JDict kv) = Raise KeyError.
Proof.
  destruct Hdocs as (kv' & E & Hkv). inversion E; subst kv'.
  assert (Hget : Json.get (JDict kv) "cirrusdoc" (JList []) = Ok (JList docs)).
  { unfold Json.get. destruct Hkv as [->|[-> ->]]; reflexivity. }
  assert (Hversions : mapM doc_version docs = Ok (map JInt vs)).
  { apply mapM_Forall2. clear -Hvs. induction Hvs; simpl; constructor; auto. }
  assert (Hints : mapM as_int (map JInt vs) = Ok vs).
  { apply mapM_Forall2. clear. induction vs; simpl; constructor; auto. }
  unfold page_rev. rewrite Hget. cbn [bind Json.iter].
  rewrite Hversions. cbn [bind]. rewrite Hints. cbn [bind].
  unfold Json.getitem. now rewrite Htitle.
Qed.

Lemma page_without_title_raises_witness :
  page_rev (JDict [("pageid"%string, JInt 582);
                   ("cirrusdoc"%string, JList [cirrus_doc 42])])
  = Raise KeyError.
Proof.
  apply (page_without_title_raises _ [cirrus_doc 42] [42]).
  - eexists. split; [reflexivity|]. left. reflexivity.
  - repeat constructor.
  - reflexivity.
Defined.

(** X8.  The first per-shard document whose version cannot be read decides
    the outcome for the page: its exception is raised, whatever the later
    documents and the title are. *)
Theorem bad_document_raises (kv : list (string * json)) (pre post : list json)
    (doc : json) (vs : list json) (e : exn)
    (Hdocs : assoc "cirrusdoc"%string kv = Some (JList (pre ++ doc :: post)))
    (Hpre : mapM doc_version pre = Ok vs)
    (Hdoc : doc_version doc = Raise e) :
  page_rev (JDict kv) = Raise e.
Proof.
  unfold page_rev, Json.get. rewrite Hdocs. cbn [bind Json.iter].
  now rewrite (mapM_raise doc_version pre post doc vs e).
Qed.

Lemma bad_document_raises_witness :
  page_rev (JDict [("title"%string, JStr "Q1");
                   ("cirrusdoc"%string,
                    JList [cirrus_doc 42; JDict [("index"%string, JStr "general")];
                           cirrus_doc 41])])
  = Raise KeyError.
Proof.
  apply (bad_document_raises _ [cirrus_doc 42] [cirrus_doc 41]
           (JDict [("index"%string, JStr "general")]) [JInt 42]).
  - reflexivity.
  - reflexivity.
  - reflexivity.
Defined.

(** ** Building a revision from an event *)

Section ParseFacts.

Context {Time : Type} (env : Env Time).

(** The revision of an event is read from three places of the decoded
    object, its [title], the [new] of its [revision] and its [timestamp];
    whatever else the object carries plays no part. *)
Lemma parse_revision_fields (raw_event title : string)
    (kv : list (string * json)) (revision : json) (new timestamp : Z)
    (Hloads : json_loads env raw_event = Some (JDict kv))
    (Htitle : assoc "title"%string kv = Some (JStr title))
    (Hrevision : assoc "revision"%string kv = Some revision)
    (Hnew : Json.getitem revision "new" = Ok (JInt new))
    (Htimestamp : assoc "timestamp"%string kv = Some (JInt timestamp)) :
  parse_revision env raw_event = Ok (mk_Revision title new timestamp).
Proof.
  unfold parse_revision, loads. rewrite Hloads. cbn [bind Json.getitem].
  rewrite Htitle, Hrevision. cbn [bind]. rewrite Hnew. cbn [bind].
  rewrite Htimestamp. reflexivity.
Qed.

(** X9.  An event that decodes to something other than an object raises
    TypeError; an object without a [title] or without a [revision] raises
    KeyError, as does one whose [revision] object has no [new]. *)
Theorem parse_revision_errors (raw_event : string) (j : json)
    (Hloads : json_loads env raw_event = Some j) :
  ((forall kv, j <> JDict kv) -> parse_revision env raw_event = Raise TypeError) /\
  (forall kv, j = JDict kv ->
     (assoc "title"%string kv = None \/ assoc "revision"%string kv = None) ->
     parse_revision env raw_event = Raise KeyError) /\
  (forall kv title kv', j = JDict kv ->
     assoc "title"%string kv = Some title ->
     assoc "revision"%string kv = Some (JDict kv') ->
     assoc "new"%string kv' = None ->
     parse_revision env raw_event = Raise KeyError).
Proof.
  unfold parse_revision, loads. rewrite Hloads. cbn [bind]. split; [|split].
  - intros Hno. destruct j; try reflexivity. now elim (Hno kv).
  - intros kv -> [H|H]; cbn [Json.getitem].
    + now rewrite H.
    + destruct (assoc "title"%string kv); [|reflexivity]. cbn [bind]. now rewrite H.
  - intros kv title kv' -> Ht Hr Hn. cbn [Json.getitem].
    rewrite Ht. cbn [bind]. rewrite Hr. cbn [bind Json.getitem]. now rewrite Hn.
Qed.

(** X10.  Any exception raised while a revision is built from a popped
    item stops the polling loop with that exception: the items popped
    before it have been upserted, the item itself is gone, the items below
    it stay queued, and no lookup is made. *)
Theorem bad_event_is_fatal (n : nat) (s : state Time) (before after : list string)
    (raw : string) (rs : list Revision) (e : exn)
    (Hq : rev (items (q s)) = before ++ raw :: after)
    (Hbefore : mapM (parse_revision env) before = Ok rs)
    (Hraw : parse_revision env raw = Raise e) :
  monitor_latency env (S n) s
  = (Raise e,
     mk_state (mk_deque (maxlen (q s)) (rev after)) (upsert_all rs (revs s))
              (requests s) (clock_reads s) (sleeps s) (yielded s)).
Proof.
  cbn [monitor_latency]. unfold poll_cycle, mbind at 1 2.
  rewrite fill_revs_eq, Hq.
  rewrite (fill_revs_loop_raise env before raw after rs (revs s) (Raise e) Hbefore);
    [reflexivity | exact Hraw | discriminate].
Qed.

(** X11.  When every queued item gives a revision, [fill_revs] leaves the
    queue empty and has upserted the revisions in the order of the pops,
    the most recently queued item first; nothing else changes. *)
Theorem fill_revs_drains (s : state Time) (rs : list Revision)
    (Hparse : mapM (parse_revision env) (rev (items (q s))) = Ok rs) :
  fill_revs env s
  = (Ok tt,
     mk_state (mk_deque (maxlen (q s)) []) (upsert_all rs (revs s))
              (requests s) (clock_reads s) (sleeps s) (yielded s)).
Proof.
  rewrite fill_revs_eq, (fill_revs_loop_ok env _ rs (revs s) Hparse). reflexivity.
Qed.

End ParseFacts.

Lemma parse_revision_fields_witness :
  parse_revision sample_env (compact q1_42) = Ok (mk_Revision "Q1" 42 1000).
Proof.
  apply (parse_revision_fields sample_env (compact q1_42) "Q1"
           [("domain", JStr "www.wikidata.org"); ("type", JStr "edit");
            ("title", JStr "Q1"); ("revision", JDict [("new", JInt 42)]);
            ("timestamp", JInt 1000)]%string
           (JDict [("new"%string, JInt 42)]) 42 1000).
  - vm_compute. reflexivity.
  - reflexivity.
  - reflexivity.
  - reflexivity.
  - reflexivity.
Defined.

Lemma parse_revision_errors_witness :
  parse_revision sample_env (compact protect_log) = Raise KeyError.
Proof.
  refine (proj1 (proj2 (parse_revision_errors sample_env (compact protect_log)
                          protect_log _)) _ eq_refl _).
  - vm_compute. reflexivity.
  - right. reflexivity.
Defined.

Lemma bad_event_is_fatal_witness :
  monitor_latency sample_env 2
    (state_with [compact q1_42; compact protect_log; compact x_5] [])
  = (Raise KeyError,
     mk_state (mk_deque 5 (rev [compact q1_42]))
              (upsert_all [mk_Revision "X" 5 500] []) [] 0%nat 0%nat []).
Proof.
  apply (bad_event_is_fatal sample_env 1
           (state_with [compact q1_42; compact protect_log; compact x_5] [])
           [compact x_5] [compact q1_42] (compact protect_log)
           [mk_Revision "X" 5 500] KeyError).
  - reflexivity.
  - vm_compute. reflexivity.
  - vm_compute. reflexivity.
Defined.

Lemma fill_revs_drains_witness :
  fill_revs sample_env (state_with [compact x_5; compact q1_42; compact x_7] [])
  = (Ok tt,
     mk_state (mk_deque 5 [])
       (upsert_all [mk_Revision "X" 7 700; mk_Revision "Q1" 42 1000;
                    mk_Revision "X" 5 500] [])
       [] 0%nat 0%nat []).
Proof.
  apply (fill_revs_drains sample_env
           (state_with [compact x_5; compact q1_42; compact x_7] [])).
  vm_compute. reflexivity.
Defined.

(** ** The resolution phase *)

(** X12.  For a positive expected revision the guard of the loop holds
    exactly when a revision is reported and is not below the expected
    one: the truth test of the reported value only matters for expected
    revisions that are 0 or negative. *)
Theorem satisfied_positive (R : option Z) (rev : Revision)
    (Hpos : 0 < rev_id rev) :
  satisfied R rev = true <-> exists r, R = Some r /\ r >= rev_id rev.
Proof.
  rewrite satisfied_spec. split.
  - intros (r & E & _ & Hge). now exists r.
  - intros (r & E & Hge). exists r. repeat split; [exact E | lia | exact Hge].
Qed.

Lemma satisfied_positive_witness :
  satisfied (Some 43) (mk_Revision "Q1" 42 1000) = true <->
  exists r, Some 43 = Some r /\ r >= 42.
Proof.
  apply (satisfied_positive (Some 43) (mk_Revision "Q1" 42 1000)).
  simpl. lia.
Defined.

Section ResolutionFacts.

Context {Time : Type} (env : Env Time).
Implicit Types (s : state Time).

Lemma for_each_app {A} (l1 l2 : list A) (body : A -> M Time unit) s :
  for_each (l1 ++ l2) body s =
  match for_each l1 body s with
  | (Ok _, s1) => for_each l2 body s1
  | other => other
  end.
Proof.
  revert s; induction l1 as [|a l1 IH]; intros s; cbn [app for_each].
  - reflexivity.
  - unfold mbind. destruct (body a s) as [[[]|e|] s1]; [apply IH | reflexivity..].
Qed.

(** X13.  A reported title that is not pending when its pair is reached,
    because the lookup names the page otherwise than the feed did or
    because an earlier pair of the same response resolved it, raises
    KeyError: the pairs before it have had their effect, the pairs after
    it are not looked at. *)
Theorem unknown_title_stops_resolution
    (before after : list (result (string * option Z))) (t : string) (R : option Z)
    (s s1 : state Time)
    (Hbefore : for_each before (resolve env) s = (Ok tt, s1))
    (Hunknown : Dict.getitem t (revs s1) = Raise KeyError) :
  for_each (before ++ Ok (t, R) :: after) (resolve env) s = (Raise KeyError, s1).
Proof.
  rewrite for_each_app, Hbefore. cbn [for_each]. unfold mbind.
  rewrite resolve_eq, Hunknown. reflexivity.
Qed.

Lemma resolved_entries_ext (d d' : dict Revision) (pairs : list (string * option Z)) :
  (forall t, In t (map fst pairs) -> assoc t d' = assoc t d) ->
  resolved_entries d' pairs = resolved_entries d pairs.
Proof.
  induction pairs as [|p pairs IH]; intros H; [reflexivity|].
  unfold resolved_entries in *. cbn [flat_map].
  rewrite (H (fst p)) by now left. f_equal. apply IH.
  intros t Ht. apply H. now right.
Qed.

Lemma for_each_resolve_eq (pairs : list (string * option Z)) (s : state Time)
    (Hdistinct : NoDup (map fst pairs))
    (Hpending : forall t, In t (map fst pairs) -> assoc t (revs s) <> None) :
  let done := resolved_entries (revs s) pairs in
  for_each (map Ok pairs) (resolve env) s
  = (Ok tt,
     mk_state (q s) (remove_all (map fst done) (revs s)) (requests s)
              (clock_reads s + List.length done)%nat (sleeps s)
              (yielded s ++ stamp (clock env) (clock_reads s) (map snd done))).
Proof.
  revert s Hpending; induction pairs as [|[t R] pairs IH]; intros s Hpending.
  - cbn. rewrite Nat.add_0_r, app_nil_r. now destruct s.
  - inversion Hdistinct as [|? ? Hnotin Hrest]; subst.
    cbn [map for_each]. unfold mbind. rewrite resolve_eq.
    unfold Dict.getitem.
    destruct (assoc t (revs s)) as [rev|] eqn:Ht;
      [|exfalso; apply (Hpending t); [now left | exact Ht]].
    assert (Hd : resolved_entries (revs s) ((t, R) :: pairs)
                 = (if satisfied R rev then [(t, rev)] else [])
                   ++ resolved_entries (revs s) pairs).
    { unfold resolved_entries. cbn [flat_map fst snd]. now rewrite Ht. }
    cbn zeta. rewrite Hd.
    destruct (satisfied R rev).
    + rewrite (IH Hrest).
      * cbn [revs q requests clock_reads sleeps yielded yield_now set_revs].
        rewrite (resolved_entries_ext (revs s) (remove t (revs s)) pairs).
        -- cbn [app map List.length remove_all fold_left stamp fst snd].
           unfold remove_all. rewrite <- app_assoc. cbn [app].
           now rewrite Nat.add_succ_r.
        -- intros t' Ht'. apply assoc_remove_ne. intros ->. contradiction.
      * intros t' Ht'. cbn [revs yield_now set_revs].
        rewrite assoc_remove_ne by (intros ->; contradiction).
        apply Hpending. now right.
    + rewrite (IH Hrest); [reflexivity|].
      intros t' Ht'. apply Hpending. now right.
Qed.

(** X14.  The whole resolution phase, for a response that reports each
    title once and only pending ones: it raises nothing; the entries whose
    guard holds are removed, and only they; each is yielded once, in the
    order of the response, with successive readings of the clock; the
    queue, the request log and the sleep count are untouched. *)
Theorem resolve_all (pairs : list (string * option Z)) (s : state Time)
    (Hdistinct : NoDup (map fst pairs))
    (Hpending : forall t, In t (map fst pairs) -> assoc t (revs s) <> None) :
  let done := resolved_entries (revs s) pairs in
  for_each (map Ok pairs) (resolve env) s
  = (Ok tt,
     mk_state (q s) (remove_all (map fst done) (revs s)) (requests s)
              (clock_reads s + List.length done)%nat (sleeps s)
              (yielded s ++ stamp (clock env) (clock_reads s) (map snd done))).
Proof. intros done. now apply for_each_resolve_eq. Qed.

End ResolutionFacts.

Lemma unknown_title_stops_resolution_witness :
  for_each [Ok ("X"%string, Some 7); Ok ("X"%string, Some 7);
            Ok ("Q1"%string, Some 42)]
           (resolve sample_env)
           (state_with [] [("X"%string, mk_Revision "X" 7 100);
                           ("Q1"%string, mk_Revision "Q1" 42 1000)])
  = (Raise KeyError,
     mk_state (mk_deque 5 []) [("Q1"%string, mk_Revision "Q1" 42 1000)] []
              1%nat 0%nat [(mk_Revision "X" 7 100, 1060)]).
Proof.
  apply (unknown_title_stops_resolution sample_env
           [Ok ("X"%string, Some 7)] [Ok ("Q1"%string, Some 42)] "X" (Some 7)).
  - reflexivity.
  - reflexivity.
Defined.

Lemma resolve_all_witness :
  for_each (map Ok [("X"%string, Some 7); ("Y"%string, None);
                    ("Q1"%string, Some 41); ("Z"%string, Some 9)])
           (resolve sample_env)
           (state_with [] [("Q1"%string, mk_Revision "Q1" 42 1000);
                           ("X"%string, mk_Revision "X" 7 100);
                           ("Y"%string, mk_Revision "Y" 3 200);
                           ("Z"%string, mk_Revision "Z" 8 300)])
  = (Ok tt,
     mk_state (mk_deque 5 [])
              [("Q1"%string, mk_Revision "Q1" 42 1000);
               ("Y"%string, mk_Revision "Y" 3 200)]
              [] 2%nat 0%nat
              [(mk_Revision "X" 7 100, 1060); (mk_Revision "Z" 8 300, 1070)]).
Proof.
  apply (resolve_all sample_env
           [("X"%string, Some 7); ("Y"%string, None);
            ("Q1"%string, Some 41); ("Z"%string, Some 9)]
           (state_with [] [("Q1"%string, mk_Revision "Q1" 42 1000);
                           ("X"%string, mk_Revision "X" 7 100);
                           ("Y"%string, mk_Revision "Y" 3 200);
                           ("Z"%string, mk_Revision "Z" 8 300)])).
  - cbn [map fst]. repeat constructor; cbn; intuition discriminate.
  - cbn [map fst revs state_with]. intros t [<-|[<-|[<-|[<-|[]]]]]; discriminate.
Defined.

(** ** What the loop keeps over its turns *)

Section Respects.

Context {Time : Type} (R : state Time -> state Time -> Prop).
Hypothesis R_refl : forall s, R s s.
Hypothesis R_trans : forall s1 s2 s3, R s1 s2 -> R s2 s3 -> R s1 s3.

Lemma respects_mret {A} (a : A) : respects R (mret a).
Proof. intros s. apply R_refl. Qed.

Lemma respects_lift {A} (r : result A) : respects R (lift r).
Proof. intros s. apply R_refl. Qed.

Lemma respects_gets {A} (f : state Time -> A) : respects R (gets f).
Proof. intros s. apply R_refl. Qed.

Lemma respects_mbind {A B} (m : M Time A) (k : A -> M Time B) :
  respects R m -> (forall a, respects R (k a)) -> respects R (mbind m k).
Proof.
  intros Hm Hk s. unfold mbind. specialize (Hm s).
  destruct (m s) as [[a|e|] s1]; cbn [snd] in *; [|exact Hm..].
  eapply R_trans; [exact Hm | apply Hk].
Qed.

Lemma respects_for_each {A} (l : list A) (body : A -> M Time unit) :
  (forall a, respects R (body a)) -> respects R (for_each l body).
Proof.
  intros Hbody. induction l as [|a l IH]; cbn [for_each].
  - apply respects_mret.
  - apply respects_mbind; [apply Hbody | intros _; exact IH].
Qed.

Lemma respects_monitor_latency (env : Env Time) :
  respects R (fill_revs env) ->
  (forall titles, respects R (cirrusdump env titles)) ->
  (forall next, respects R (resolve env next)) ->
  respects R (sleep env) ->
  forall n, respects R (monitor_latency env n).
Proof.
  intros Hfill Hdump Hresolve Hsleep.
  assert (Hcycle : respects R (poll_cycle env)).
  { unfold poll_cycle.
    apply respects_mbind; [exact Hfill | intros _].
    apply respects_mbind; [apply respects_gets | intros d].
    apply respects_mbind; [|intros pairs].
    - unfold current_search_rev.
      apply respects_mbind; [apply Hdump | intros pages].
      apply respects_mbind; [apply respects_lift | intros ps; apply respects_mret].
    - apply respects_mbind; [|intros _; exact Hsleep].
      apply respects_for_each. exact Hresolve. }
  induction n as [|n IH]; cbn [monitor_latency].
  - apply respects_mret.
  - apply respects_mbind; [exact Hcycle | intros _; exact IH].
Qed.

End Respects.

Section LoopFacts.

Context {Time : Type} (env : Env Time).
Implicit Types (s : state Time).

Lemma cirrusdump_state titles s :
  snd (cirrusdump env titles s) = s \/
  snd (cirrusdump env titles s) = log_request (join "|" titles) s.
Proof.
  unfold cirrusdump. destruct (_ =? _)%string; [now left | right].
  unfold mbind, gets, modify, lift.
  destruct (requests_get env _ _) as [res|e|]; try reflexivity.
  destruct (raise_for_status res); reflexivity.
Qed.

Lemma resolve_state next s :
  snd (resolve env next s) = s \/
  exists t rev,
    Dict.getitem t (revs s) = Ok rev /\
    snd (resolve env next s)
    = yield_now env rev (set_revs (remove t (revs s)) s).
Proof.
  rewrite resolve_eq. destruct next as [[t cur]|e|]; try now left.
  destruct (Dict.getitem t (revs s)) as [rev|e|] eqn:E; try now left.
  destruct (satisfied cur rev); [right | now left].
  now exists t, rev.
Qed.

Lemma yields_extend_refl s : yields_extend s s.
Proof. exists []. now rewrite app_nil_r, Nat.add_0_r. Qed.

Lemma yields_extend_trans s1 s2 s3 :
  yields_extend s1 s2 -> yields_extend s2 s3 -> yields_extend s1 s3.
Proof.
  intros (ys & Hy & Hc) (zs & Hz & Hd). exists (ys ++ zs).
  rewrite Hz, Hy, Hd, Hc, length_app, app_assoc. split; [reflexivity | lia].
Qed.

(** X15.  Over any number of turns, and also when the loop stops on an
    exception, what has been yielded stays yielded, in its order, and the
    clock has been read exactly once for every further yield. *)
Theorem yields_are_kept (n : nat) (s : state Time) :
  exists ys,
    yielded (snd (monitor_latency env n s)) = yielded s ++ ys /\
    clock_reads (snd (monitor_latency env n s))
    = (clock_reads s + List.length ys)%nat.
Proof.
  apply (respects_monitor_latency yields_extend yields_extend_refl
           yields_extend_trans env); clear s.
  - intros s. rewrite fill_revs_eq. exists []. cbn. now rewrite app_nil_r, Nat.add_0_r.
  - intros titles s. destruct (cirrusdump_state titles s) as [->| ->];
      exists []; cbn; now rewrite app_nil_r, Nat.add_0_r.
  - intros next s. destruct (resolve_state next s) as [->|(t & rev & _ & ->)].
    + apply yields_extend_refl.
    + exists [(rev, clock env (clock_reads s))]. cbn. split; [reflexivity | lia].
  - intros s. exists []. cbn. now rewrite app_nil_r, Nat.add_0_r.
Qed.

Lemma same_accounts_refl s : same_accounts s s.
Proof. now split. Qed.

Lemma same_accounts_trans s1 s2 s3 :
  same_accounts s1 s2 -> same_accounts s2 s3 -> same_accounts s1 s3.
Proof. intros [H1 H2] [H3 H4]. split; congruence. Qed.

Lemma spends_same kr ks s s' :
  requests s' = requests s -> sleeps s' = sleeps s -> spends kr ks s s'.
Proof.
  intros Hr Hs. exists []. rewrite app_nil_r, Hs. cbn. repeat split; [exact Hr | lia..].
Qed.

Lemma spends_mbind {A B} (a b c d : nat) (m : M Time A) (k : A -> M Time B) :
  (forall s, spends a b s (snd (m s))) ->
  (forall x s, spends c d s (snd (k x s))) ->
  forall s, spends (a + c) (b + d) s (snd (mbind m k s)).
Proof.
  intros Hm Hk s. unfold mbind. specialize (Hm s).
  destruct (m s) as [[x|e|] s1]; cbn [snd] in *.
  - destruct Hm as (rq & Hrq & Hlen & Hsl).
    destruct (Hk x s1) as (rq' & Hrq' & Hlen' & Hsl').
    exists (rq ++ rq'). rewrite Hrq', Hrq, length_app, app_assoc.
    repeat split; lia.
  - destruct Hm as (rq & Hrq & Hlen & Hsl). exists rq. repeat split; [exact Hrq | lia..].
  - destruct Hm as (rq & Hrq & Hlen & Hsl). exists rq. repeat split; [exact Hrq | lia..].
Qed.

Lemma sleeps_exactly_mbind {A B} (j k : nat) (m : M Time A) (f : A -> M Time B) :
  sleeps_exactly j m -> (forall x, sleeps_exactly k (f x)) ->
  sleeps_exactly (j + k) (mbind m f).
Proof.
  intros Hm Hf s b. unfold mbind. specialize (Hm s).
  destruct (m s) as [[x|e|] s1]; cbn [fst snd] in *; try discriminate.
  intros Hb. rewrite (Hf x s1 b Hb), (Hm x eq_refl). lia.
Qed.

Lemma sleeps_exactly_same {A} (m : M Time A) :
  (forall s, sleeps (snd (m s)) = sleeps s) -> sleeps_exactly 0 m.
Proof. intros H s a _. rewrite H. lia. Qed.

Lemma for_each_resolve_accounts (pairs : list (result (string * option Z))) s :
  same_accounts s (snd (for_each pairs (resolve env) s)).
Proof.
  revert s. apply (respects_for_each same_accounts same_accounts_refl
                     same_accounts_trans).
  intros next s. destruct (resolve_state next s) as [->|(t & rev & _ & ->)];
    now split.
Qed.

Lemma current_search_rev_state titles s :
  snd (current_search_rev env titles s) = snd (cirrusdump env titles s).
Proof.
  unfold current_search_rev, mbind, lift, mret.
  destruct (cirrusdump env titles s) as [[pages|e|] s1]; try reflexivity.
  destruct (Json.values pages); reflexivity.
Qed.

Lemma poll_cycle_spends s : spends 1 1 s (snd (poll_cycle env s)).
Proof.
  revert s. unfold poll_cycle.
  apply (spends_mbind 0 0 1 1).
  { intros s. rewrite fill_revs_eq. now apply spends_same. }
  intros _. apply (spends_mbind 0 0 1 1).
  { intros s. now apply spends_same. }
  intros d. apply (spends_mbind 1 0 0 1).
  { intros s. rewrite current_search_rev_state.
    destruct (cirrusdump_state (keys d) s) as [->| ->].
    - now apply spends_same.
    - exists [join "|" (keys d)]. cbn. repeat split; lia. }
  intros pairs. apply (spends_mbind 0 0 0 1).
  { intros s. destruct (for_each_resolve_accounts pairs s). now apply spends_same. }
  intros _ s. exists []. cbn. rewrite app_nil_r. repeat split; lia.
Qed.

Lemma poll_cycle_sleeps : sleeps_exactly 1 (poll_cycle env).
Proof.
  unfold poll_cycle.
  apply (sleeps_exactly_mbind 0 1).
  { apply sleeps_exactly_same. intros s. now rewrite fill_revs_eq. }
  intros _. apply (sleeps_exactly_mbind 0 1).
  { now apply sleeps_exactly_same. }
  intros d. apply (sleeps_exactly_mbind 0 1).
  { apply sleeps_exactly_same. intros s. rewrite current_search_rev_state.
    now destruct (cirrusdump_state (keys d) s) as [->| ->]. }
  intros pairs. apply (sleeps_exactly_mbind 0 1).
  { apply sleeps_exactly_same. intros s.
    now destruct (for_each_resolve_accounts pairs s). }
  intros _ s a _. cbn. lia.
Qed.

(** X16.  Over [n] turns the request log is only extended, by at most [n]
    requests, one per turn; the loop sleeps at most [n] times, and exactly
    [n] times when no turn raised. *)
Theorem turn_accounting (n : nat) (s : state Time) :
  exists rq,
    requests (snd (monitor_latency env n s)) = requests s ++ rq /\
    (List.length rq <= n)%nat /\
    (sleeps (snd (monitor_latency env n s)) <= sleeps s + n)%nat /\
    (fst (monitor_latency env n s) = Ok tt ->
     sleeps (snd (monitor_latency env n s)) = (sleeps s + n)%nat).
Proof.
  assert (Hspends : forall s0, spends n n s0 (snd (monitor_latency env n s0))).
  { induction n as [|k IH]; cbn [monitor_latency].
    - intros s0. now apply spends_same.
    - apply (spends_mbind 1 1 k k); [apply poll_cycle_spends | intros _; exact IH]. }
  assert (Hsleeps : sleeps_exactly n (monitor_latency env n)).
  { clear Hspends. induction n as [|k IH]; cbn [monitor_latency].
    - now apply sleeps_exactly_same.
    - apply (sleeps_exactly_mbind 1 k); [apply poll_cycle_sleeps | intros _; exact IH]. }
  destruct (Hspends s) as (rq & Hrq & Hlen & Hsl).
  exists rq. repeat split; try assumption.
  intros Hok. now apply (Hsleeps s tt).
Qed.

End LoopFacts.

Section TableFacts.

Context {Time : Type} (env : Env Time).
Implicit Types (s : state Time).

Lemma fill_revs_loop_rest (todo : list string) (d : dict Revision) :
  (List.length (snd (fst (fill_revs_loop env todo d))) <= List.length todo)%nat.
Proof.
  revert d; induction todo as [|raw todo IH]; intros d; cbn [fill_revs_loop].
  - cbn. lia.
  - destruct (parse_revision env raw); cbn [fst snd List.length]; [|lia..].
    specialize (IH (setitem (page_title a) a d)). lia.
Qed.

Lemma queue_kept_refl s : queue_kept s s.
Proof. split; auto. Qed.

Lemma queue_kept_trans s1 s2 s3 :
  queue_kept s1 s2 -> queue_kept s2 s3 -> queue_kept s1 s3.
Proof. intros [M1 L1] [M2 L2]. split; [congruence | auto]. Qed.

(** X17.  The queue that the poller shares with the sampler keeps its
    capacity, and if it starts within it, it is within it after any number
    of turns, whatever the sampler delivers meanwhile and also when the
    loop stops on an exception. *)
Theorem poller_queue_bounded (n : nat) (s : state Time)
    (Hbound : (List.length (items (q s)) <= maxlen (q s))%nat) :
  maxlen (q (snd (monitor_latency env n s))) = maxlen (q s) /\
  (List.length (items (q (snd (monitor_latency env n s)))) <= maxlen (q s))%nat.
Proof.
  assert (H : queue_kept s (snd (monitor_latency env n s))).
  { apply (respects_monitor_latency queue_kept queue_kept_refl queue_kept_trans env);
      clear s Hbound.
    - intros s. rewrite fill_revs_eq. split; cbn [snd q maxlen items]; [reflexivity|].
      intros Hs. rewrite length_rev.
      pose proof (fill_revs_loop_rest (rev (items (q s))) (revs s)) as Hrest.
      rewrite length_rev in Hrest. lia.
    - intros titles s. destruct (cirrusdump_state env titles s) as [->| ->];
        split; cbn; auto.
    - intros next s. destruct (resolve_state env next s) as [->|(t & rev & _ & ->)];
        split; cbn; auto.
    - intros s. split; cbn [snd sleep modify q]; [apply maxlen_extend|].
      intros Hs. rewrite maxlen_extend. now apply length_items_extend. }
  destruct H as [Hm Hl]. split; [exact Hm|]. rewrite <- Hm. now apply Hl.
Qed.

Lemma In_remove {V} (k : string) (p : string * V) (d : dict V) :
  In p (remove k d) -> In p d.
Proof.
  induction d as [|[k0 v0] d IH]; cbn [remove]; [tauto|].
  destruct (String.eqb_spec k k0); cbn [In]; tauto.
Qed.

Lemma fill_revs_loop_keys (todo : list string) (d : dict Revision) (k : string) :
  In k (keys d) -> In k (keys (snd (fill_revs_loop env todo d))).
Proof.
  revert d; induction todo as [|raw todo IH]; intros d H; cbn [fill_revs_loop].
  - exact H.
  - destruct (parse_revision env raw); cbn [snd]; try exact H.
    apply IH. apply In_keys_setitem. now right.
Qed.

(** X18.  The two phases change the pending table in opposite ways only:
    draining the queue never drops a subject, and the resolution phase
    never adds an entry nor alters one, whether they return or raise. *)
Theorem table_changes_by_phase :
  (forall s k, In k (keys (revs s)) -> In k (keys (revs (snd (fill_revs env s))))) /\
  (forall pairs s entry,
     In entry (revs (snd (for_each pairs (resolve env) s))) -> In entry (revs s)).
Proof.
  split.
  - intros s k H. rewrite fill_revs_eq. cbn [snd revs]. now apply fill_revs_loop_keys.
  - intros pairs.
    apply (respects_for_each table_within
             (fun s => incl_refl (revs s))
             (fun s1 s2 s3 H12 H23 => incl_tran H23 H12)).
    intros next s. destruct (resolve_state env next s) as [->|(t & rev & _ & ->)].
    + apply incl_refl.
    + intros p Hp. cbn in Hp. eapply In_remove. exact Hp.
Qed.

Lemma mapM_Ok_map {A B} (f : A -> result B) (l : list A) (l' : list B) :
  mapM f l = Ok l' -> map f l = map Ok l'.
Proof.
  revert l'; induction l as [|a l IH]; intros l' H; cbn [mapM] in H.
  - now inversion H.
  - destruct (f a) as [b| |] eqn:E; try discriminate. cbn [bind] in H.
    destruct (mapM f l) as [bs| |]; try discriminate. inversion H; subst.
    cbn [map]. now rewrite E, (IH bs).
Qed.

(** X19.  A whole turn that meets no exception: the queue is drained into
    the table, one lookup is made for the pending titles, the reported
    entries whose guard holds are removed and yielded in the order of the
    response, and the loop sleeps once while the sampler delivers. *)
Theorem turn_succeeds (s s2 : state Time) (rs : list Revision)
    (pages : list (string * json)) (pairs : list (string * option Z))
    (Hparse : mapM (parse_revision env) (rev (items (q s))) = Ok rs)
    (Hdump : cirrusdump env (keys (upsert_all rs (revs s)))
               (mk_state (mk_deque (maxlen (q s)) []) (upsert_all rs (revs s))
                         (requests s) (clock_reads s) (sleeps s) (yielded s))
             = (Ok (JDict pages), s2))
    (Hpairs : mapM page_rev (map snd pages) = Ok pairs)
    (Hdistinct : NoDup (map fst pairs))
    (Hpending : forall t, In t (map fst pairs) ->
                          assoc t (upsert_all rs (revs s)) <> None) :
  let done := resolved_entries (upsert_all rs (revs s)) pairs in
  poll_cycle env s
  = (Ok tt,
     mk_state (extend (sampled env (sleeps s)) (mk_deque (maxlen (q s)) []))
              (remove_all (map fst done) (upsert_all rs (revs s)))
              (requests s2)
              (clock_reads s + List.length done)%nat
              (S (sleeps s))
              (yielded s ++ stamp (clock env) (clock_reads s) (map snd done))).
Proof.
  intros done.
  pose proof (cirrusdump_state env (keys (upsert_all rs (revs s)))
                (mk_state (mk_deque (maxlen (q s)) []) (upsert_all rs (revs s))
                          (requests s) (clock_reads s) (sleeps s) (yielded s)))
    as Hs2.
  rewrite Hdump in Hs2. cbn [snd] in Hs2.
  unfold poll_cycle, current_search_rev, mbind, gets, lift, mret.
  rewrite fill_revs_eq, (fill_revs_loop_ok env _ rs (revs s) Hparse).
  cbn [fst snd revs rev]. rewrite Hdump.
  cbn [Json.values]. rewrite (mapM_Ok_map _ _ _ Hpairs).
  assert (Hrevs : revs s2 = upsert_all rs (revs s))
    by (destruct Hs2 as [->| ->]; reflexivity).
  rewrite (for_each_resolve_eq env pairs s2 Hdistinct) by (now rewrite Hrevs).
  unfold sleep, modify. cbn. subst done. rewrite Hrevs.
  destruct Hs2 as [->| ->]; reflexivity.
Qed.

End TableFacts.

Lemma poller_queue_bounded_witness :
  maxlen (q (snd (monitor_latency busy_env 3 (state_with [compact q1_42] []))))
  = 5%nat /\
  (List.length (items (q (snd (monitor_latency busy_env 3
                                 (state_with [compact q1_42] [])))))
   <= 5)%nat.
Proof.
  apply (poller_queue_bounded busy_env 3 (state_with [compact q1_42] [])).
  cbn. lia.
Defined.

Lemma turn_succeeds_witness :
  poll_cycle busy_env
    (mk_state (mk_deque 5 [compact q1_42]) [] ["Q1"%string] 0%nat 1%nat [])
  = (Ok tt,
     mk_state (mk_deque 5 [compact x_5; compact q1_42; compact x_7]) []
              ["Q1"; "Q1"]%string 1%nat 2%nat
              [(mk_Revision "Q1" 42 1000, 1060)]).
Proof.
  apply (turn_succeeds busy_env
           (mk_state (mk_deque 5 [compact q1_42]) [] ["Q1"%string] 0%nat 1%nat [])
           (mk_state (mk_deque 5 []) [("Q1"%string, mk_Revision "Q1" 42 1000)]
                     ["Q1"; "Q1"]%string 0%nat 1%nat [])
           [mk_Revision "Q1" 42 1000]
           [("582"%string, cirrus_page "Q1" (Some [42; 40]))]
           [("Q1"%string, Some 42)]).
  - vm_compute. reflexivity.
  - vm_compute. reflexivity.
  - reflexivity.
  - cbn. constructor; [intros [] | constructor].
  - cbn. intros t [<-|[]]. discriminate.
Defined.

Lemma idle_cycle_makes_no_request_witness :
  fst (poll_cycle busy_env (state_with [] [])) = Ok tt /\
  requests (snd (poll_cycle busy_env (state_with [] []))) = [] /\
  sleeps (snd (poll_cycle busy_env (state_with [] []))) = 1%nat.
Proof.
  apply (idle_cycle_makes_no_request busy_env (state_with [] [])); reflexivity.
Defined.

(** ** The wiring of [main] *)

(** X20.  With the filter that [main] passes to [make_input_queue], every
    payload that can reach the poller through the second deque carries the
    text of the target domain and the text of an edit or of a creation,
    under any schedule of the two threads. *)
Theorem main_queue_only_filtered (ops : list intake_op) :
  exists s',
    intake_run input_filter ops make_input_queue = Ok s' /\
    forall payload, In payload (items (final_q s')) -> has_filter_texts payload.
Proof.
  destruct (bounded_intake_run input_filter ops _ make_input_queue_bounded)
    as (s' & Hrun & _).
  exists s'. split; [exact Hrun|]. intros payload Hin.
  assert (H : input_filter payload = true).
  { apply (intake_run_items input_filter ops make_input_queue s'
             (fun x => input_filter x = true) Hrun).
    - intros y [].
    - intros y Hy. apply In_accepted in Hy. destruct Hy as (ev & _ & _ & Hf & <-).
      exact Hf.
    - apply in_or_app. now right. }
  unfold input_filter in H. apply andb_true_iff in H. destruct H as [Hd Ht].
  apply orb_true_iff in Ht. now split.
Qed.
